(** * Lead capture: session store and submission controller

    A shallow embedding of [src/lib/lead-store.ts] (the zustand session
    store) and of the [LeadCaptureForm] component ([handleSubmit],
    [handleInputChange], the rendered view and the "Submit Another Lead"
    button).

    JavaScript effects are threaded through a small monad of completions:
    a computation either completes normally, throws, or leaves the
    enclosing function through [return].  The world it runs in holds the
    store singleton, the two [useState] cells of the component, the
    console, the number of clock readings and the list of remote calls
    issued so far.  An [await] is the point where the outcome of a remote
    call becomes known; each handler runs to its end before the next user
    action, as it does on the page while the submit button is disabled. *)

From Stdlib Require Import String Ascii List Bool Arith Lia.
Import ListNotations.
Open Scope string_scope.

Set Implicit Arguments.

(** ** Data model *)

(** [interface Lead].  [emailSent] is attached by the controller with an
    object spread ([{...lead, emailSent: false}]); it is absent ([None])
    on the candidate lead built before the remote calls. *)
Record Lead := mkLead {
  name : string;
  email : string;
  industry : string;
  submitted_at : string;
  emailSent : option bool
}.

(** [interface LeadStore], data part. *)
Record LeadStore := mkLeadStore {
  submitted : bool;
  sessionLeads : list Lead;
  error : option string;
  isLoading : bool
}.

(** The component's form state, [useState({ name, email, industry })]. *)
Record FormData := mkFormData {
  form_name : string;
  form_email : string;
  form_industry : string
}.

(** [ValidationError] of [@/lib/validation]: a field name and a message. *)
Record ValidationError := mkValidationError {
  field : string;
  vmessage : string
}.

(** A value caught by a [catch] clause: an [Error] instance carrying its
    [message], or any other thrown value. *)
Inductive Thrown :=
| ErrorObject (message : string)
| NonError (shown : string).

(** The row sent to [supabase.from('leads').insert]. *)
Record Row := mkRow {
  row_name : string;
  row_email : string;
  row_industry : string;
  row_submitted_at : string
}.

(** The body sent to [supabase.functions.invoke('send-confirmation')]. *)
Record Body := mkBody {
  body_name : string;
  body_email : string;
  body_industry : string
}.

(** What awaiting the insert yields: the promise resolves to
    [{ error: dbError }] ([None] for [null], otherwise the error's
    message) or it rejects.  A request aborted by the 10 s timer ends in
    one of the two failing shapes. *)
Inductive InsertOutcome :=
| InsertResolved (dbError : option string)
| InsertRejected (e : Thrown).

(** What awaiting the function invocation yields: [{ error, data }] or a
    rejection. *)
Inductive InvokeOutcome :=
| InvokeResolved (emailError : option string) (emailData : string)
| InvokeRejected (e : Thrown).

(** A remote call that was issued, with what came back. *)
Inductive RemoteCall :=
| Insert (row : Row) (outcome : InsertOutcome)
| Invoke (body : Body) (outcome : InvokeOutcome).

Inductive ConsoleEntry :=
| ConsoleError (label : string) (about : string)
| ConsoleLog (label : string) (about : string).

(** Everything a submission can read or change. *)
Record World := mkWorld {
  store : LeadStore;
  formData : FormData;
  validationErrors : list ValidationError;
  remoteCalls : list RemoteCall;
  console : list ConsoleEntry;
  clockReads : nat
}.

(** The collaborators a submission talks to: the clock behind
    [new Date().toISOString()] (the n-th reading), the database insert and
    the confirmation function. *)
Record Env := mkEnv {
  Date_toISOString : nat -> string;
  supabase_insert : Row -> InsertOutcome;
  functions_invoke : Body -> InvokeOutcome
}.

(** ** JavaScript values *)

(** A string is falsy exactly when it is empty ([!lead.name]). *)
Definition truthy (s : string) : bool := negb (s =? "").

Definition shown (t : Thrown) : string :=
  match t with
  | ErrorObject m => m
  | NonError s => s
  end.

(** ** Completions *)

Inductive Completion (A : Type) :=
| Normal (a : A)
| Throw (e : Thrown)
| Return.

Arguments Normal {A} a.
Arguments Throw {A} e.
Arguments Return {A}.

Definition M (A : Type) : Type := World -> Completion A * World.

Definition ret {A} (a : A) : M A := fun w => (Normal a, w).

Definition bind {A B} (m : M A) (k : A -> M B) : M B :=
  fun w =>
    match m w with
    | (Normal a, w') => k a w'
    | (Throw e, w') => (Throw e, w')
    | (Return, w') => (Return, w')
    end.

Notation "x <- m ;; k" := (bind m (fun x => k))
  (at level 61, m at next level, right associativity).
Notation "m ;; k" := (bind m (fun _ => k))
  (at level 61, right associativity).

Definition throw {A} (e : Thrown) : M A := fun w => (Throw e, w).

(** [return;] *)
Definition return_ {A} : M A := fun w => (Return, w).

(** [try { body } catch (e) { handler }] *)
Definition try_catch {A} (body : M A) (handler : Thrown -> M A) : M A :=
  fun w =>
    match body w with
    | (Throw e, w') => handler e w'
    | r => r
    end.

(** [if (c) { m }] *)
Definition when (c : bool) (m : M unit) : M unit :=
  if c then m else ret tt.

(** A function body: [return] ends the function, not its caller. *)
Definition function_body (m : M unit) : M unit :=
  fun w =>
    match m w with
    | (Return, w') => (Normal tt, w')
    | r => r
    end.

Definition exec {A} (m : M A) (w : World) : World := snd (m w).
Definition completion {A} (m : M A) (w : World) : Completion A := fst (m w).

(** ** World access *)

(** zustand's [get()] and [set(fn)]. *)
Definition get : M LeadStore := fun w => (Normal (store w), w).

Definition set (f : LeadStore -> LeadStore) : M unit :=
  fun w =>
    (Normal tt,
     mkWorld (f (store w)) (formData w) (validationErrors w)
             (remoteCalls w) (console w) (clockReads w)).

Definition console_error (label about : string) : M unit :=
  fun w =>
    (Normal tt,
     mkWorld (store w) (formData w) (validationErrors w) (remoteCalls w)
             (console w ++ [ConsoleError label about]) (clockReads w)).

Definition console_log (label about : string) : M unit :=
  fun w =>
    (Normal tt,
     mkWorld (store w) (formData w) (validationErrors w) (remoteCalls w)
             (console w ++ [ConsoleLog label about]) (clockReads w)).

(** ** The session store, [useLeadStore] *)

Definition initialStore : LeadStore := mkLeadStore false [] None false.

Definition setSubmitted (submitted' : bool) : M unit :=
  set (fun state =>
         mkLeadStore submitted' (sessionLeads state) (error state)
                     (isLoading state)).

Definition same_email (lead l : Lead) : bool := email l =? email lead.

Definition addLead (lead : Lead) : M unit :=
  try_catch
    (when (negb (truthy (name lead)) || negb (truthy (email lead)))
       (throw (ErrorObject "Invalid lead data: name and email are required")) ;;
     current <- get ;;
     let existingLead := find (same_email lead) (sessionLeads current) in
     when (match existingLead with Some _ => true | None => false end)
       (throw (ErrorObject
                 "A lead with this email already exists in this session")) ;;
     set (fun state =>
            mkLeadStore (submitted state) (sessionLeads state ++ [lead]) None
                        (isLoading state)))
    (fun caught =>
       set (fun state =>
              mkLeadStore (submitted state) (sessionLeads state)
                (Some (match caught with
                       | ErrorObject m => m
                       | NonError _ => "Failed to add lead"
                       end))
                (isLoading state)) ;;
       console_error "Error adding lead:" (shown caught)).

Definition clearError : M unit :=
  set (fun state =>
         mkLeadStore (submitted state) (sessionLeads state) None
                     (isLoading state)).

Definition setLoading (loading : bool) : M unit :=
  set (fun state =>
         mkLeadStore (submitted state) (sessionLeads state) (error state)
                     loading).

(** The store operations as data, to speak of arbitrary call sequences. *)
Inductive StoreOp :=
| OpSetSubmitted (flag : bool)
| OpAddLead (lead : Lead)
| OpClearError
| OpSetLoading (flag : bool).

Definition call (op : StoreOp) : M unit :=
  match op with
  | OpSetSubmitted b => setSubmitted b
  | OpAddLead l => addLead l
  | OpClearError => clearError
  | OpSetLoading b => setLoading b
  end.

Fixpoint calls (ops : list StoreOp) (w : World) : World :=
  match ops with
  | [] => w
  | op :: rest => calls rest (exec (call op) w)
  end.

(** ** The component, [LeadCaptureForm] *)

Definition emptyForm : FormData := mkFormData "" "" "".

(** The world when the page has just loaded. *)
Definition initialWorld : World :=
  mkWorld initialStore emptyForm [] [] [] 0.

Definition setFormData (f : FormData -> FormData) : M unit :=
  fun w =>
    (Normal tt,
     mkWorld (store w) (f (formData w)) (validationErrors w)
             (remoteCalls w) (console w) (clockReads w)).

Definition setValidationErrors
    (f : list ValidationError -> list ValidationError) : M unit :=
  fun w =>
    (Normal tt,
     mkWorld (store w) (formData w) (f (validationErrors w))
             (remoteCalls w) (console w) (clockReads w)).

(** [new Date().toISOString()] *)
Definition Date_now (env : Env) : M string :=
  fun w =>
    (Normal (Date_toISOString env (clockReads w)),
     mkWorld (store w) (formData w) (validationErrors w)
             (remoteCalls w) (console w) (S (clockReads w))).

Definition record_call (c : RemoteCall) (w : World) : World :=
  mkWorld (store w) (formData w) (validationErrors w)
          (remoteCalls w ++ [c]) (console w) (clockReads w).

(** [await supabase.from('leads').insert([row]).abortSignal(signal)] *)
Definition await_insert (env : Env) (row : Row) : M (option string) :=
  fun w =>
    let outcome := supabase_insert env row in
    (match outcome with
     | InsertResolved dbError => Normal dbError
     | InsertRejected e => Throw e
     end,
     record_call (Insert row outcome) w).

(** [await supabase.functions.invoke('send-confirmation', { body, signal })] *)
Definition await_invoke (env : Env) (body : Body)
  : M (option string * string) :=
  fun w =>
    let outcome := functions_invoke env body in
    (match outcome with
     | InvokeResolved emailError emailData => Normal (emailError, emailData)
     | InvokeRejected e => Throw e
     end,
     record_call (Invoke body outcome) w).

(** [{...lead, emailSent: flag}] *)
Definition with_emailSent (lead : Lead) (flag : bool) : Lead :=
  mkLead (name lead) (email lead) (industry lead) (submitted_at lead)
         (Some flag).

Section Controller.

(** [validateLeadForm] of [@/lib/validation].  The module is outside the
    verified sources, so the controller is read for any validator. *)
Variable validateLeadForm : FormData -> list ValidationError.

Definition handleSubmit (env : Env) : M unit :=
  function_body
    (fun w0 =>
       let formData := formData w0 in
       (clearError ;;
        setLoading true ;;
        let errors := validateLeadForm formData in
        setValidationErrors (fun _ => errors) ;;
        when (Nat.eqb (length errors) 0)
          (now <- Date_now env ;;
           let lead :=
             mkLead (form_name formData) (form_email formData)
                    (form_industry formData) now None in
           try_catch
             (now' <- Date_now env ;;
              dbError <- await_insert env
                           (mkRow (form_name formData) (form_email formData)
                                  (form_industry formData) now') ;;
              match dbError with
              | Some dbMessage =>
                  console_error "Error saving lead to database:" dbMessage ;;
                  throw (ErrorObject ("Database error: " ++ dbMessage))
              | None => ret tt
              end ;;
              try_catch
                (response <- await_invoke env
                               (mkBody (form_name formData)
                                       (form_email formData)
                                       (form_industry formData)) ;;
                 match response with
                 | (Some emailError, _) =>
                     console_error "Error sending confirmation email:"
                                   emailError ;;
                     addLead (with_emailSent lead false)
                 | (None, emailData) =>
                     console_log "Confirmation email sent successfully:"
                                 emailData ;;
                     addLead (with_emailSent lead true)
                 end)
                (fun emailError =>
                   console_error "Email sending failed:" (shown emailError) ;;
                   addLead (with_emailSent lead false)))
             (fun caught =>
                console_error "Error in submission process:" (shown caught) ;;
                setLoading false ;;
                return_) ;;
           setSubmitted true ;;
           setFormData (fun _ => mkFormData "" "" "")) ;;
        setLoading false) w0).

End Controller.

(** [setFormData(prev => ({ ...prev, [field]: value }))]; a key other
    than the three fields leaves them as they are. *)
Definition put_field (fieldName value : string) (prev : FormData) : FormData :=
  if fieldName =? "name" then
    mkFormData value (form_email prev) (form_industry prev)
  else if fieldName =? "email" then
    mkFormData (form_name prev) value (form_industry prev)
  else if fieldName =? "industry" then
    mkFormData (form_name prev) (form_email prev) value
  else prev.

Definition handleInputChange (fieldName value : string) : M unit :=
  function_body
    (fun w0 =>
       let validationErrors := validationErrors w0 in
       (setFormData (put_field fieldName value) ;;
        when (existsb (fun e => field e =? fieldName) validationErrors)
          (setValidationErrors
             (filter (fun e => negb (field e =? fieldName))))) w0).

(** What the component renders. *)
Inductive View :=
| SuccessView (sessionCount : nat)
| EntryForm (fields : FormData)
            (nameError emailError industryError : option string)
            (storeError : option string)
            (busy : bool)
            (validationBanner : bool).

Definition getFieldError (errors : list ValidationError) (fieldName : string)
  : option string :=
  option_map vmessage (find (fun e => field e =? fieldName) errors).

Definition LeadCaptureForm (w : World) : View :=
  if submitted (store w) then
    SuccessView (length (sessionLeads (store w)))
  else
    EntryForm (formData w)
              (getFieldError (validationErrors w) "name")
              (getFieldError (validationErrors w) "email")
              (getFieldError (validationErrors w) "industry")
              (error (store w))
              (isLoading (store w))
              (negb (Nat.eqb (length (validationErrors w)) 0)).

(** The [onClick] of the "Submit Another Lead" button. *)
Definition submitAnother : M unit := setSubmitted false.

(** What a user can do with the rendered component.  The form (and its
    submit handler) exists only in the entry view, the submit button is
    disabled while [isLoading]; the "Submit Another Lead" button exists
    only in the success view. *)
Inductive UserAction :=
| TypeInto (fieldName value : string)
| Submit (env : Env)
| SubmitAnother.

Section Session.

Variable validateLeadForm : FormData -> list ValidationError.

Definition perform (a : UserAction) : M unit :=
  fun w =>
    match LeadCaptureForm w, a with
    | EntryForm _ _ _ _ _ _ _, TypeInto f v => handleInputChange f v w
    | EntryForm _ _ _ _ _ busy _, Submit env =>
        if busy then ret tt w else handleSubmit validateLeadForm env w
    | SuccessView _, SubmitAnother => submitAnother w
    | _, _ => ret tt w
    end.

Fixpoint session (actions : list UserAction) (w : World) : World :=
  match actions with
  | [] => w
  | a :: rest => session rest (exec (perform a) w)
  end.

End Session.

(** ** Validation, as the specification describes it *)

Module Validation.

(** ASCII white space, the part of [\s] a byte string can hold. *)
Definition is_space (c : ascii) : bool :=
  match nat_of_ascii c with
  | 9 | 10 | 11 | 12 | 13 | 32 => true
  | _ => false
  end.

Fixpoint all_chars (p : ascii -> bool) (s : string) : bool :=
  match s with
  | EmptyString => true
  | String c rest => p c && all_chars p rest
  end.

(** A character of the class [[^\s@]]. *)
Definition plain (c : ascii) : bool :=
  negb (is_space c) && negb (Ascii.eqb c "@").

(** The text after the first ["@"], and whether anything precedes it. *)
Fixpoint after_at (s : string) (seen : bool) : option (bool * string) :=
  match s with
  | EmptyString => None
  | String c rest =>
      if Ascii.eqb c "@" then Some (seen, rest) else after_at rest true
  end.

(** Some ["."] of [s] has a character after it. *)
Fixpoint dot_before_end (s : string) : bool :=
  match s with
  | String c (String _ _ as rest) => Ascii.eqb c "." || dot_before_end rest
  | _ => false
  end.

(** [^[^\s@]+@[^\s@]+\.[^\s@]+$] *)
Definition email_shape (s : string) : bool :=
  match after_at s false with
  | Some (true, String c domain) =>
      all_chars (fun c => negb (is_space c)) s
      && all_chars plain (String c domain)
      && dot_before_end domain
  | _ => false
  end.

(** The [value]s of the industry selection control. *)
Definition industries : list string :=
  ["technology"; "healthcare"; "finance"; "education"; "retail";
   "manufacturing"; "consulting"; "other"].

(** Modelled from the spec: [validateLeadForm] of [@/lib/validation],
    a module outside the verified sources.  One error per offending
    field, in the order name, email, industry: the name fails when empty
    or all white space, the email when empty or not of email shape, the
    industry when it is not one of the allowed values.  The specification
    fixes neither the pattern nor the messages; the pattern is the one
    the project's README shows for the server-side check. *)
Definition validateLeadForm (data : FormData) : list ValidationError :=
  (if all_chars is_space (form_name data)
   then [mkValidationError "name" "Name is required"] else [])
  ++ (if truthy (form_email data) && email_shape (form_email data)
      then [] else [mkValidationError "email" "A valid email is required"])
  ++ (if existsb (String.eqb (form_industry data)) industries
      then [] else [mkValidationError "industry" "Industry is required"]).

End Validation.

(** ** Vocabulary of the statements *)

(** The two ways a call of [addLead] ends. *)
Definition rejected (reason : string) : M unit :=
  set (fun state =>
         mkLeadStore (submitted state) (sessionLeads state) (Some reason)
                     (isLoading state)) ;;
  console_error "Error adding lead:" reason.

Definition accepted (lead : Lead) : M unit :=
  set (fun state =>
         mkLeadStore (submitted state) (sessionLeads state ++ [lead]) None
                     (isLoading state)).

Definition invalid_lead_message : string :=
  "Invalid lead data: name and email are required".

Definition duplicate_email_message : string :=
  "A lead with this email already exists in this session".

(** The leads of a store that carry a given email. *)
Definition stored_with_email (e : string) (st : LeadStore) : nat :=
  length (filter (fun l => email l =? e) (sessionLeads st)).

Definition emails_unique (st : LeadStore) : Prop :=
  NoDup (map email (sessionLeads st)).

(** [{...lead, industry}] *)
Definition with_industry (lead : Lead) (industry' : string) : Lead :=
  mkLead (name lead) (email lead) industry' (submitted_at lead)
         (emailSent lead).

(** The candidate lead, the row and the body a submission builds from the
    form data and two readings of the clock. *)
Definition candidate (env : Env) (w : World) : Lead :=
  mkLead (form_name (formData w)) (form_email (formData w))
         (form_industry (formData w)) (Date_toISOString env (clockReads w))
         None.

Definition insert_row (env : Env) (w : World) : Row :=
  mkRow (form_name (formData w)) (form_email (formData w))
        (form_industry (formData w))
        (Date_toISOString env (S (clockReads w))).

Definition invoke_body (w : World) : Body :=
  mkBody (form_name (formData w)) (form_email (formData w))
         (form_industry (formData w)).

(** The insert failed: [dbError] is set, or the awaited promise rejected. *)
Definition insert_failed (o : InsertOutcome) : bool :=
  match o with
  | InsertResolved None => false
  | _ => true
  end.

(** The confirmation was sent: the invocation resolved without an error. *)
Definition notified (o : InvokeOutcome) : bool :=
  match o with
  | InvokeResolved None _ => true
  | _ => false
  end.

Definition insert_console (o : InsertOutcome) : list ConsoleEntry :=
  match o with
  | InsertResolved (Some dbMessage) =>
      [ConsoleError "Error saving lead to database:" dbMessage;
       ConsoleError "Error in submission process:"
                    ("Database error: " ++ dbMessage)]
  | InsertResolved None => []
  | InsertRejected e => [ConsoleError "Error in submission process:" (shown e)]
  end.

Definition notify_console (o : InvokeOutcome) : ConsoleEntry :=
  match o with
  | InvokeResolved (Some emailError) _ =>
      ConsoleError "Error sending confirmation email:" emailError
  | InvokeResolved None emailData =>
      ConsoleLog "Confirmation email sent successfully:" emailData
  | InvokeRejected e => ConsoleError "Email sending failed:" (shown e)
  end.

(** The world of a submission that passed validation and whose insert
    succeeded, at the moment it calls [addLead]. *)
Definition before_addLead (env : Env) (w : World) : World :=
  mkWorld
    (mkLeadStore (submitted (store w)) (sessionLeads (store w)) None true)
    (formData w) []
    ((remoteCalls w
      ++ [Insert (insert_row env w) (InsertResolved None)])
      ++ [Invoke (invoke_body w) (functions_invoke env (invoke_body w))])
    (console w ++ [notify_console (functions_invoke env (invoke_body w))])
    (S (S (clockReads w))).

(** The last three statements of a submission that went through. *)
Definition finish : M unit :=
  setSubmitted true ;;
  setFormData (fun _ => mkFormData "" "" "") ;;
  setLoading false.

(** The remote calls one submission may add, oldest first. *)
Inductive attempt_calls : list RemoteCall -> Prop :=
| no_call : attempt_calls []
| failed_insert (row : Row) (o : InsertOutcome) :
    insert_failed o = true -> attempt_calls [Insert row o]
| insert_then_notify (row : Row) (body : Body) (o : InvokeOutcome) :
    attempt_calls [Insert row (InsertResolved None); Invoke body o].

Definition is_invoke (c : RemoteCall) : bool :=
  match c with
  | Invoke _ _ => true
  | Insert _ _ => false
  end.

(** ** Vocabulary of the further properties *)

Definition is_addLead (op : StoreOp) : bool :=
  match op with
  | OpAddLead _ => true
  | _ => false
  end.

Definition is_successful_insert (c : RemoteCall) : bool :=
  match c with
  | Insert _ (InsertResolved None) => true
  | _ => false
  end.

(** A submission got past validation and its insert succeeded. *)
Definition went_through (validateLeadForm : FormData -> list ValidationError)
           (env : Env) (w : World) : bool :=
  Nat.eqb (length (validateLeadForm (formData w))) 0
  && negb (insert_failed (supabase_insert env (insert_row env w))).

(** The body of an invocation carries the fields of a row. *)
Definition same_fields (row : Row) (body : Body) : Prop :=
  body_name body = row_name row /\
  body_email body = row_email row /\
  body_industry body = row_industry row.

(** A history of remote calls made of failed inserts and of successful
    inserts each followed at once by one invocation for the same fields. *)
Inductive paired : list RemoteCall -> Prop :=
| paired_nil : paired []
| paired_failed (row : Row) (o : InsertOutcome) (rest : list RemoteCall) :
    insert_failed o = true -> paired rest -> paired (Insert row o :: rest)
| paired_sent (row : Row) (body : Body) (o : InvokeOutcome)
              (rest : list RemoteCall) :
    same_fields row body -> paired rest ->
    paired (Insert row (InsertResolved None) :: Invoke body o :: rest).

(** A session lead is backed by the remote calls: a successful insert and
    an invocation with its three fields, the invocation deciding its
    [emailSent]. *)
Definition backed_by (calls : list RemoteCall) (l : Lead) : Prop :=
  exists row body o,
    In (Insert row (InsertResolved None)) calls /\
    In (Invoke body o) calls /\
    row_name row = name l /\ row_email row = email l /\
    row_industry row = industry l /\
    same_fields row body /\
    emailSent l = Some (notified o).

(** ** Concrete sessions *)

Module Scenario.

Definition clock (n : nat) : string :=
  match n with
  | 0 => "2025-07-10T13:51:08.000Z"
  | 1 => "2025-07-10T13:51:08.004Z"
  | 2 => "2025-07-10T13:54:41.310Z"
  | _ => "2025-07-10T13:54:41.312Z"
  end.

(** Both collaborators answer. *)
Definition online : Env :=
  mkEnv clock (fun _ => InsertResolved None)
        (fun _ => InvokeResolved None "sent").

(** The insert comes back with an error object. *)
Definition database_down : Env :=
  mkEnv clock (fun _ => InsertResolved (Some "connection refused"))
        (fun _ => InvokeResolved None "sent").

(** The insert is aborted by the timer and the promise rejects. *)
Definition database_timeout : Env :=
  mkEnv clock
        (fun _ => InsertRejected (ErrorObject "The operation was aborted"))
        (fun _ => InvokeResolved None "sent").

(** The confirmation function answers with an error. *)
Definition mail_down : Env :=
  mkEnv clock (fun _ => InsertResolved None)
        (fun _ => InvokeResolved (Some "non-2xx status code") "").

(** The confirmation call is aborted by the timer. *)
Definition mail_timeout : Env :=
  mkEnv clock (fun _ => InsertResolved None)
        (fun _ => InvokeRejected (ErrorObject "The operation was aborted")).

Definition ada : FormData :=
  mkFormData "Ada" "ada@example.com" "technology".

Definition grace : FormData :=
  mkFormData "Grace" "grace@example.com" "education".

Definition fill (data : FormData) : list UserAction :=
  [TypeInto "name" (form_name data);
   TypeInto "email" (form_email data);
   TypeInto "industry" (form_industry data)].

(** A fresh page with Ada's data typed in. *)
Definition ada_typed : World :=
  session Validation.validateLeadForm (fill ada) initialWorld.

(** Ada has submitted, pressed "Submit Another Lead" and typed the same
    data again. *)
Definition ada_again : World :=
  session Validation.validateLeadForm
          (fill ada ++ [Submit online; SubmitAnother] ++ fill ada)
          initialWorld.

(** Ada has submitted, and Grace's data is typed in. *)
Definition grace_after_ada : World :=
  session Validation.validateLeadForm
          (fill ada ++ [Submit online; SubmitAnother] ++ fill grace)
          initialWorld.

Definition ada_lead : Lead :=
  mkLead "Ada" "ada@example.com" "technology" (clock 0) (Some true).

Definition ada_late : Lead :=
  mkLead "Ada L." "ada@example.com" "finance" (clock 2) None.

Definition grace_lead : Lead :=
  mkLead "Grace" "grace@example.com" "" (clock 2) None.

End Scenario.

(** * Properties *)

(** ** The store *)

Lemma truthy_true (s : string) : truthy s = true <-> s <> "".
Proof.
  unfold truthy. rewrite negb_true_iff. split.
  - intros H E. rewrite E in H. discriminate.
  - intros H. apply String.eqb_neq. exact H.
Qed.

Lemma truthy_false (s : string) : truthy s = false <-> s = "".
Proof.
  unfold truthy. rewrite negb_false_iff. apply String.eqb_eq.
Qed.

Lemma find_same_email_None (lead : Lead) (leads : list Lead) :
  find (same_email lead) leads = None <->
  (forall l, In l leads -> email l <> email lead).
Proof.
  split.
  - intros H l Hin E.
    apply (find_none _ _ H) in Hin.
    unfold same_email in Hin. apply String.eqb_neq in Hin. contradiction.
  - intros H. induction leads as [|l rest IH]; [reflexivity|].
    cbn. unfold same_email at 1.
    destruct (String.eqb_spec (email l) (email lead)) as [E|_].
    + exfalso. apply (H l); [left; reflexivity | exact E].
    + apply IH. intros l' Hin. apply H. right. exact Hin.
Qed.

Lemma find_same_email_Some (lead : Lead) (leads : list Lead) :
  (exists l, In l leads /\ email l = email lead) ->
  exists found, find (same_email lead) leads = Some found.
Proof.
  intros [l [Hin E]].
  destruct (find (same_email lead) leads) as [found|] eqn:F.
  - exists found. reflexivity.
  - exfalso. apply (proj1 (find_same_email_None lead leads) F l Hin E).
Qed.

Lemma addLead_invalid (lead : Lead) (w : World) :
  name lead = "" \/ email lead = "" ->
  addLead lead w = rejected invalid_lead_message w.
Proof.
  intros H. unfold addLead, try_catch, bind at 1, when.
  assert (T : negb (truthy (name lead)) || negb (truthy (email lead)) = true).
  { destruct H as [H|H]; apply truthy_false in H; rewrite H;
      [reflexivity | apply orb_true_r]. }
  rewrite T. reflexivity.
Qed.

Lemma addLead_duplicate (lead : Lead) (w : World) :
  name lead <> "" -> email lead <> "" ->
  (exists l, In l (sessionLeads (store w)) /\ email l = email lead) ->
  addLead lead w = rejected duplicate_email_message w.
Proof.
  intros Hn He Hdup.
  apply truthy_true in Hn. apply truthy_true in He.
  destruct (find_same_email_Some lead _ Hdup) as [found F].
  unfold addLead, try_catch, bind, when, get.
  rewrite Hn, He. cbn. rewrite F. reflexivity.
Qed.

Lemma addLead_fresh (lead : Lead) (w : World) :
  name lead <> "" -> email lead <> "" ->
  (forall l, In l (sessionLeads (store w)) -> email l <> email lead) ->
  addLead lead w = accepted lead w.
Proof.
  intros Hn He Hfresh.
  apply truthy_true in Hn. apply truthy_true in He.
  apply find_same_email_None in Hfresh.
  unfold addLead, try_catch, bind, when, get.
  rewrite Hn, He. cbn. rewrite Hfresh. reflexivity.
Qed.

(** Whether [addLead] turns the lead away, decided on the data. *)
Lemma addLead_cases (lead : Lead) (w : World) :
  (name lead = "" \/ email lead = "" \/
   exists l, In l (sessionLeads (store w)) /\ email l = email lead)
  \/ (name lead <> "" /\ email lead <> "" /\
      forall l, In l (sessionLeads (store w)) -> email l <> email lead).
Proof.
  destruct (string_dec (name lead) "") as [Hn|Hn]; [left; left; exact Hn|].
  destruct (string_dec (email lead) "") as [He|He];
    [left; right; left; exact He|].
  destruct (find (same_email lead) (sessionLeads (store w))) as [l|] eqn:F.
  - left. right. right. exists l. split.
    + apply (find_some _ _ F).
    + apply find_some in F. apply String.eqb_eq. apply F.
  - right. split; [exact Hn|]. split; [exact He|].
    apply find_same_email_None. exact F.
Qed.

(** [addLead] has its own [catch]: nothing escapes it. *)
Lemma addLead_completes (lead : Lead) (w : World) :
  completion (addLead lead) w = Normal tt.
Proof.
  unfold completion.
  destruct (addLead_cases lead w) as [[H|[H|H]]|[Hn [He H]]].
  - rewrite addLead_invalid by (left; exact H). reflexivity.
  - rewrite addLead_invalid by (right; exact H). reflexivity.
  - destruct (string_dec (name lead) "") as [Hn|Hn];
      [rewrite addLead_invalid by (left; exact Hn); reflexivity|].
    destruct (string_dec (email lead) "") as [He|He];
      [rewrite addLead_invalid by (right; exact He); reflexivity|].
    rewrite addLead_duplicate by assumption. reflexivity.
  - rewrite addLead_fresh by assumption. reflexivity.
Qed.

(** [addLead] touches the store and the console only. *)
Lemma addLead_frame (lead : Lead) (w : World) :
  let w' := exec (addLead lead) w in
  formData w' = formData w /\
  validationErrors w' = validationErrors w /\
  remoteCalls w' = remoteCalls w /\
  clockReads w' = clockReads w.
Proof.
  cbn zeta. unfold exec.
  destruct (addLead_cases lead w) as [[H|[H|H]]|[Hn [He H]]].
  - rewrite addLead_invalid by (left; exact H). repeat split.
  - rewrite addLead_invalid by (right; exact H). repeat split.
  - destruct (string_dec (name lead) "") as [Hn|Hn];
      [rewrite addLead_invalid by (left; exact Hn); repeat split|].
    destruct (string_dec (email lead) "") as [He|He];
      [rewrite addLead_invalid by (right; exact He); repeat split|].
    rewrite addLead_duplicate by assumption. repeat split.
  - rewrite addLead_fresh by assumption. repeat split.
Qed.

(** What a call of [addLead] leaves in the store, by cases. *)
Lemma addLead_store (lead : Lead) (w : World) :
  let before := store w in
  let after := store (exec (addLead lead) w) in
  submitted after = submitted before /\
  isLoading after = isLoading before /\
  ((name lead = "" \/ email lead = "" \/
    exists l, In l (sessionLeads before) /\ email l = email lead) ->
   sessionLeads after = sessionLeads before /\
   exists reason, error after = Some reason) /\
  (name lead <> "" -> email lead <> "" ->
   (forall l, In l (sessionLeads before) -> email l <> email lead) ->
   sessionLeads after = (sessionLeads before ++ [lead])%list /\
   error after = None).
Proof.
  cbn zeta. unfold exec.
  destruct (addLead_cases lead w) as [Hrej|[Hn [He Hfresh]]].
  - assert (R : exists reason, addLead lead w = rejected reason w).
    { destruct Hrej as [H|[H|H]].
      - eexists. apply addLead_invalid. left. exact H.
      - eexists. apply addLead_invalid. right. exact H.
      - destruct (string_dec (name lead) "") as [Hn|Hn];
          [eexists; apply addLead_invalid; left; exact Hn|].
        destruct (string_dec (email lead) "") as [He|He];
          [eexists; apply addLead_invalid; right; exact He|].
        eexists. apply addLead_duplicate; assumption. }
    destruct R as [reason R]. rewrite R. cbn.
    split; [reflexivity|]. split; [reflexivity|]. split.
    + intros _. split; [reflexivity|]. exists reason. reflexivity.
    + intros Hn He Hfresh. exfalso.
      destruct Hrej as [H|[H|[l [Hin E]]]]; try contradiction.
      apply (Hfresh l Hin E).
  - rewrite addLead_fresh by assumption. cbn.
    split; [reflexivity|]. split; [reflexivity|]. split.
    + intros H. exfalso.
      destruct H as [H|[H|[l [Hin E]]]]; try contradiction.
      apply (Hfresh l Hin E).
    + intros _ _ _. split; reflexivity.
Qed.

Lemma filter_email_absent (e : string) (leads : list Lead) :
  (forall l, In l leads -> email l <> e) ->
  filter (fun l => email l =? e) leads = [].
Proof.
  induction leads as [|l rest IH]; intros H; [reflexivity|].
  cbn. destruct (String.eqb_spec (email l) e) as [E|_].
  - exfalso. apply (H l); [left; reflexivity | exact E].
  - apply IH. intros l' Hin. apply H. right. exact Hin.
Qed.

Lemma filter_email_present (e : string) (leads : list Lead) :
  NoDup (map email leads) ->
  (exists l, In l leads /\ email l = e) ->
  length (filter (fun l => email l =? e) leads) = 1.
Proof.
  induction leads as [|l rest IH]; intros Hnd [x [Hin E]]; [destruct Hin|].
  cbn in Hnd. inversion Hnd as [|? ? Hnotin Hrest]; subst.
  cbn. destruct (String.eqb_spec (email l) (email x)) as [El|Nl].
  - rewrite filter_email_absent; [reflexivity|].
    intros l' Hin' E'. apply Hnotin. rewrite El, <- E'.
    apply in_map. exact Hin'.
  - destruct Hin as [->|Hin]; [contradiction|].
    apply IH; [exact Hrest|]. exists x. split; [exact Hin | reflexivity].
Qed.

Lemma emails_unique_append (lead : Lead) (leads : list Lead) :
  NoDup (map email leads) ->
  (forall l, In l leads -> email l <> email lead) ->
  NoDup (map email (leads ++ [lead])).
Proof.
  intros Hnd Hfresh. rewrite map_app. cbn.
  apply (NoDup_Add (a := email lead) (l := map email leads)).
  - rewrite <- (app_nil_r (map email leads)) at 1. apply Add_app.
  - split; [exact Hnd|]. intros Hin.
    apply in_map_iff in Hin. destruct Hin as [l [E Hin]].
    apply (Hfresh l Hin E).
Qed.

Lemma call_keeps_emails_unique (op : StoreOp) (w : World) :
  emails_unique (store w) -> emails_unique (store (exec (call op) w)).
Proof.
  unfold emails_unique. destruct op as [flag|lead| |flag]; cbn;
    try (intros H; exact H).
  intros Hnd.
  destruct (addLead_store lead w) as [_ [_ [Hrej Hacc]]].
  destruct (addLead_cases lead w) as [R|[Hn [He Hfresh]]].
  - destruct (Hrej R) as [Same _]. rewrite Same. exact Hnd.
  - destruct (Hacc Hn He Hfresh) as [App _]. rewrite App.
    apply emails_unique_append; assumption.
Qed.

Lemma calls_keep_emails_unique (ops : list StoreOp) (w : World) :
  emails_unique (store w) -> emails_unique (store (calls ops w)).
Proof.
  revert w. induction ops as [|op rest IH]; intros w H; [exact H|].
  cbn. apply IH. apply call_keeps_emails_unique. exact H.
Qed.

Lemma unique_emails_pairwise (leads : list Lead) :
  NoDup (map email leads) ->
  forall i j a b,
    nth_error leads i = Some a -> nth_error leads j = Some b ->
    i <> j -> email a <> email b.
Proof.
  intros Hnd i j a b Hi Hj Hneq E. apply Hneq.
  apply (proj1 (NoDup_nth_error (map email leads)) Hnd).
  - rewrite length_map. apply nth_error_Some. rewrite Hi. discriminate.
  - rewrite !nth_error_map, Hi, Hj. cbn. rewrite E. reflexivity.
Qed.

(** C3.  [addLead] fails (a non-null [error], nothing appended) exactly
    when the lead's name is empty, its email is empty, or a lead of the
    session already has its email; otherwise the lead is appended after
    the earlier leads and [error] becomes null.  Hence, in a session whose
    emails are distinct, adding a lead that has a name and an email and
    then a second lead with the same email leaves exactly one lead with
    that email and a non-null [error]. *)
Theorem addLead_fails_exactly_when (lead : Lead) (w : World) :
  let before := store w in
  let after := store (exec (addLead lead) w) in
  let turned_away :=
    name lead = "" \/ email lead = "" \/
    exists l, In l (sessionLeads before) /\ email l = email lead in
  ((error after <> None /\ sessionLeads after = sessionLeads before)
   <-> turned_away) /\
  (~ turned_away ->
   sessionLeads after = (sessionLeads before ++ [lead])%list /\
   error after = None) /\
  (forall second,
     name lead <> "" -> email lead <> "" -> email second = email lead ->
     emails_unique before ->
     let final := store (exec (addLead second) (exec (addLead lead) w)) in
     stored_with_email (email lead) final = 1 /\ error final <> None).
Proof.
  cbn zeta.
  destruct (addLead_store lead w) as [_ [_ [Hrej Hacc]]].
  split; [split|split].
  - intros [Herr Hsame].
    destruct (addLead_cases lead w) as [R|[Hn [He Hfresh]]]; [exact R|].
    exfalso. apply Herr. apply (Hacc Hn He Hfresh).
  - intros R. destruct (Hrej R) as [Same [reason E]].
    split; [rewrite E; discriminate | exact Same].
  - intros Hnot.
    destruct (addLead_cases lead w) as [R|[Hn [He Hfresh]]];
      [contradiction|].
    apply (Hacc Hn He Hfresh).
  - intros second Hn He Esame Huniq.
    set (w1 := exec (addLead lead) w).
    assert (Hone : emails_unique (store w1) /\
                   exists l, In l (sessionLeads (store w1)) /\
                             email l = email lead).
    { split; [apply (call_keeps_emails_unique (OpAddLead lead)); exact Huniq|].
      destruct (addLead_cases lead w) as [R|[_ [_ Hfresh]]].
      - destruct (Hrej R) as [Same _]. fold w1 in Same. rewrite Same.
        destruct R as [R|[R|R]]; try contradiction. exact R.
      - destruct (Hacc Hn He Hfresh) as [App _]. fold w1 in App.
        rewrite App. exists lead. split; [|reflexivity].
        apply in_or_app. right. left. reflexivity. }
    destruct Hone as [Huniq1 Hin1].
    destruct (addLead_store second w1) as [_ [_ [Hrej2 _]]].
    assert (R2 : name second = "" \/ email second = "" \/
                 exists l, In l (sessionLeads (store w1)) /\
                           email l = email second).
    { right. right. rewrite Esame. exact Hin1. }
    destruct (Hrej2 R2) as [Same2 [reason E2]].
    split; [|rewrite E2; discriminate].
    unfold stored_with_email. rewrite Same2.
    apply filter_email_present; assumption.
Qed.

(** C4.  In every state reached from the initial store by calls of
    [setSubmitted], [addLead], [clearError] and [setLoading], no two leads
    of the session have the same email. *)
Theorem session_emails_unique (ops : list StoreOp) :
  let leads := sessionLeads (store (calls ops initialWorld)) in
  NoDup (map email leads) /\
  (forall i j a b,
     nth_error leads i = Some a -> nth_error leads j = Some b ->
     i <> j -> email a <> email b).
Proof.
  cbn zeta.
  assert (H : emails_unique (store (calls ops initialWorld))).
  { apply calls_keep_emails_unique. constructor. }
  split; [exact H | apply unique_emails_pairwise; exact H].
Qed.

(** C8.  [setSubmitted] changes the submitted flag and nothing else: the
    session's leads, the error and the loading flag stay as they were (as
    does the rest of the world).  "Submit Another Lead" is
    [setSubmitted(false)], so the number of session leads survives the
    reset. *)
Theorem setSubmitted_changes_only_submitted (flag : bool) (w : World) :
  let w' := exec (setSubmitted flag) w in
  submitted (store w') = flag /\
  sessionLeads (store w') = sessionLeads (store w) /\
  error (store w') = error (store w) /\
  isLoading (store w') = isLoading (store w) /\
  formData w' = formData w /\
  validationErrors w' = validationErrors w /\
  remoteCalls w' = remoteCalls w /\
  submitAnother = setSubmitted false /\
  submitted (store (exec submitAnother w)) = false /\
  length (sessionLeads (store (exec submitAnother w)))
  = length (sessionLeads (store w)).
Proof.
  cbn. repeat split; reflexivity.
Qed.

(** C9.  [addLead] does not look at the industry: a lead with a name and
    an email that no session lead has is appended whatever its industry,
    the empty string included, so the store can hold a lead whose industry
    is empty; and the error and the number of leads a call leaves do not
    depend on the industry of the lead. *)
Theorem addLead_ignores_industry (lead : Lead) (w : World) :
  (name lead <> "" -> email lead <> "" ->
   (forall l, In l (sessionLeads (store w)) -> email l <> email lead) ->
   (forall industry',
      let lead' := with_industry lead industry' in
      let after := store (exec (addLead lead') w) in
      sessionLeads after = (sessionLeads (store w) ++ [lead'])%list /\
      error after = None) /\
   (let after := store (exec (addLead (with_industry lead "")) w) in
    exists stored, In stored (sessionLeads after) /\ industry stored = ""))
  /\
  (forall industry1 industry2,
     let after1 := store (exec (addLead (with_industry lead industry1)) w) in
     let after2 := store (exec (addLead (with_industry lead industry2)) w) in
     error after1 = error after2 /\
     length (sessionLeads after1) = length (sessionLeads after2)).
Proof.
  split.
  - intros Hn He Hfresh.
    assert (A : forall industry',
               let lead' := with_industry lead industry' in
               let after := store (exec (addLead lead') w) in
               sessionLeads after = (sessionLeads (store w) ++ [lead'])%list /\
               error after = None).
    { intros industry'. cbn zeta.
      destruct (addLead_store (with_industry lead industry') w)
        as [_ [_ [_ Hacc]]].
      apply Hacc; assumption. }
    split; [exact A|].
    cbn zeta. destruct (A "") as [App _]. cbn zeta in App.
    exists (with_industry lead ""). split; [|reflexivity].
    rewrite App. apply in_or_app. right. left. reflexivity.
  - intros industry1 industry2. cbn zeta. unfold exec.
    destruct (string_dec (name lead) "") as [Hn|Hn].
    { rewrite !addLead_invalid by (left; exact Hn). split; reflexivity. }
    destruct (string_dec (email lead) "") as [He|He].
    { rewrite !addLead_invalid by (right; exact He). split; reflexivity. }
    destruct (addLead_cases lead w) as [[H|[H|Hdup]]|[_ [_ Hfresh]]];
      try contradiction.
    + rewrite !addLead_duplicate by assumption. split; reflexivity.
    + rewrite !addLead_fresh by assumption. cbn.
      split; [reflexivity|]. rewrite !length_app. reflexivity.
Qed.

(** ** The controller *)

Section ControllerRuns.

Variable validateLeadForm : FormData -> list ValidationError.
Variable env : Env.

Arguments addLead : simpl never.

(** Validation found something: no remote call, loading back to false. *)
Lemma handleSubmit_invalid (w : World) :
  validateLeadForm (formData w) <> [] ->
  handleSubmit validateLeadForm env w
  = (Normal tt,
     mkWorld
       (mkLeadStore (submitted (store w)) (sessionLeads (store w)) None
                    false)
       (formData w) (validateLeadForm (formData w)) (remoteCalls w)
       (console w) (clockReads w)).
Proof.
  intros HV. unfold handleSubmit, function_body, bind, when. cbn.
  destruct (validateLeadForm (formData w)) as [|e errors];
    [contradiction | reflexivity].
Qed.

(** The insert failed: the outer [catch] logs, resets loading, returns. *)
Lemma handleSubmit_insert_failed (w : World) :
  validateLeadForm (formData w) = [] ->
  insert_failed (supabase_insert env (insert_row env w)) = true ->
  handleSubmit validateLeadForm env w
  = (Normal tt,
     mkWorld
       (mkLeadStore (submitted (store w)) (sessionLeads (store w)) None
                    false)
       (formData w) []
       (remoteCalls w
        ++ [Insert (insert_row env w)
                   (supabase_insert env (insert_row env w))])
       (console w
        ++ insert_console (supabase_insert env (insert_row env w)))
       (S (S (clockReads w)))).
Proof.
  intros HV HI.
  unfold handleSubmit, function_body, bind, try_catch, when. cbn.
  rewrite HV. cbn. unfold insert_row in *.
  destruct (supabase_insert env _) as [[dbMessage|]|e]; cbn in *.
  - rewrite <- app_assoc. reflexivity.
  - discriminate.
  - reflexivity.
Qed.

(** The insert succeeded: exactly one invocation, then [addLead] with
    the flag the invocation decides, then the closing statements. *)
Lemma handleSubmit_inserted (w : World) :
  validateLeadForm (formData w) = [] ->
  supabase_insert env (insert_row env w) = InsertResolved None ->
  handleSubmit validateLeadForm env w
  = (Normal tt,
     exec finish
       (exec (addLead
                (with_emailSent (candidate env w)
                   (notified (functions_invoke env (invoke_body w)))))
             (before_addLead env w))).
Proof.
  intros HV HI.
  unfold handleSubmit, function_body, bind, try_catch, when. cbn.
  rewrite HV. cbn. unfold insert_row in HI. rewrite HI. cbn.
  unfold before_addLead, candidate, insert_row, invoke_body, exec.
  destruct (functions_invoke env _) as [[emailError|] emailData|e]; cbn;
    match goal with
    | |- context [addLead ?l ?w1] =>
        pose proof (addLead_completes l w1) as C;
        unfold completion in C;
        destruct (addLead l w1) as [c w']; cbn in C; subst c
    end; reflexivity.
Qed.

(** A submission always runs to its end: nothing escapes the handler. *)
Lemma handleSubmit_completes (w : World) :
  completion (handleSubmit validateLeadForm env) w = Normal tt.
Proof.
  unfold completion.
  destruct (validateLeadForm (formData w)) as [|e errors] eqn:HV.
  - destruct (insert_failed (supabase_insert env (insert_row env w)))
      eqn:HI.
    + rewrite handleSubmit_insert_failed by assumption. reflexivity.
    + rewrite handleSubmit_inserted; [reflexivity | exact HV |].
      destruct (supabase_insert env (insert_row env w)) as [[m|]|x];
        [discriminate | reflexivity | discriminate].
  - rewrite handleSubmit_invalid by (rewrite HV; discriminate).
    reflexivity.
Qed.

End ControllerRuns.

Section ControllerClaims.

Variable validateLeadForm : FormData -> list ValidationError.
Variable env : Env.

(** C1, as the code has it.  When validation passes and the insert
    fails (an error object in the response, or a rejected promise, which
    is also how an aborted request ends), the controller sets loading to
    false, adds no lead and leaves the submitted flag as it was.  The
    failure is written to the console only: the store's [error], cleared
    when the submission began, is null afterwards.  The insert is the
    only remote call of the attempt. *)
Theorem handleSubmit_insert_failure (w : World) :
  validateLeadForm (formData w) = [] ->
  insert_failed (supabase_insert env (insert_row env w)) = true ->
  let w' := exec (handleSubmit validateLeadForm env) w in
  isLoading (store w') = false /\
  error (store w') = None /\
  sessionLeads (store w') = sessionLeads (store w) /\
  submitted (store w') = submitted (store w) /\
  (exists earlier about,
     console w'
     = (console w ++ earlier
        ++ [ConsoleError "Error in submission process:" about])%list) /\
  remoteCalls w'
  = (remoteCalls w
     ++ [Insert (insert_row env w)
                (supabase_insert env (insert_row env w))])%list.
Proof.
  intros HV HI. cbn zeta. unfold exec.
  rewrite handleSubmit_insert_failed by assumption. cbn.
  repeat (split; [reflexivity|]). split; [|reflexivity].
  destruct (supabase_insert env (insert_row env w)) as [[dbMessage|]|e];
    cbn in *.
  - exists [ConsoleError "Error saving lead to database:" dbMessage].
    eexists. reflexivity.
  - discriminate.
  - exists []. eexists. reflexivity.
Qed.

(** C2, as the code has it.  When validation passes, the insert succeeds
    and the confirmation call fails (an error in the response, or a
    rejected promise), the controller invokes the confirmation function
    exactly once, after the insert, calls [addLead] with
    [emailSent = false] and sets submitted to true with loading false.
    The lead is appended when its name and email are non-empty and no
    session lead has its email. *)
Theorem handleSubmit_notify_failure (w : World) :
  validateLeadForm (formData w) = [] ->
  supabase_insert env (insert_row env w) = InsertResolved None ->
  notified (functions_invoke env (invoke_body w)) = false ->
  let w' := exec (handleSubmit validateLeadForm env) w in
  let lead := with_emailSent (candidate env w) false in
  submitted (store w') = true /\
  isLoading (store w') = false /\
  remoteCalls w'
  = (remoteCalls w
     ++ [Insert (insert_row env w) (InsertResolved None);
         Invoke (invoke_body w) (functions_invoke env (invoke_body w))])%list
  /\
  store w'
  = mkLeadStore true
      (sessionLeads (store (exec (addLead lead) (before_addLead env w))))
      (error (store (exec (addLead lead) (before_addLead env w))))
      false /\
  (form_name (formData w) <> "" -> form_email (formData w) <> "" ->
   (forall l, In l (sessionLeads (store w)) ->
              email l <> form_email (formData w)) ->
   sessionLeads (store w') = (sessionLeads (store w) ++ [lead])%list /\
   emailSent lead = Some false /\
   error (store w') = None).
Proof.
  intros HV HI HN. cbn zeta.
  assert (E : exec (handleSubmit validateLeadForm env) w
              = exec finish
                  (exec (addLead (with_emailSent (candidate env w) false))
                        (before_addLead env w))).
  { unfold exec at 1. rewrite handleSubmit_inserted by assumption.
    rewrite HN. reflexivity. }
  rewrite E.
  pose proof (addLead_store (with_emailSent (candidate env w) false)
                            (before_addLead env w)) as [_ [_ [_ Hacc]]].
  pose proof (addLead_frame (with_emailSent (candidate env w) false)
                            (before_addLead env w)) as [_ [_ [Calls _]]].
  remember (exec (addLead (with_emailSent (candidate env w) false))
                 (before_addLead env w)) as w1 eqn:W1.
  cbn in *.
  split; [reflexivity|]. split; [reflexivity|].
  split; [rewrite Calls, <- app_assoc; reflexivity|].
  split; [reflexivity|].
  intros Hn He Hfresh. destruct (Hacc Hn He Hfresh) as [App Err].
  split; [exact App|]. split; [reflexivity | exact Err].
Qed.

(** C5.  When validation returns a non-empty list, the submission issues
    no remote call, sets loading back to false and leaves the session's
    leads and the submitted flag unchanged; the errors are kept for
    display. *)
Theorem handleSubmit_validation_errors (w : World) :
  validateLeadForm (formData w) <> [] ->
  let w' := exec (handleSubmit validateLeadForm env) w in
  remoteCalls w' = remoteCalls w /\
  isLoading (store w') = false /\
  sessionLeads (store w') = sessionLeads (store w) /\
  submitted (store w') = submitted (store w) /\
  validationErrors w' = validateLeadForm (formData w).
Proof.
  intros HV. cbn zeta. unfold exec.
  rewrite handleSubmit_invalid by assumption. cbn.
  repeat split.
Qed.

(** C6.  The remote calls one submission adds are none, or one failed
    insert, or one successful insert followed by one invocation of the
    confirmation function: the invocation never precedes a successful
    insert and never happens twice. *)
Theorem handleSubmit_remote_calls_ordered (w : World) :
  exists calls,
    remoteCalls (exec (handleSubmit validateLeadForm env) w)
    = (remoteCalls w ++ calls)%list /\
    attempt_calls calls /\
    length (filter is_invoke calls) <= 1 /\
    length (filter is_invoke calls)
    = (if Nat.eqb (length (validateLeadForm (formData w))) 0
          && negb (insert_failed (supabase_insert env (insert_row env w)))
       then 1 else 0).
Proof.
  unfold exec.
  destruct (validateLeadForm (formData w)) as [|e errors] eqn:HV.
  - destruct (insert_failed (supabase_insert env (insert_row env w)))
      eqn:HI.
    + rewrite handleSubmit_insert_failed by assumption. cbn.
      eexists. split; [reflexivity|]. split; [|cbn; split; [lia|reflexivity]].
      apply failed_insert. exact HI.
    + assert (HI' : supabase_insert env (insert_row env w)
                    = InsertResolved None).
      { destruct (supabase_insert env (insert_row env w)) as [[m|]|x];
          [discriminate | reflexivity | discriminate]. }
      rewrite handleSubmit_inserted by assumption.
      exists [Insert (insert_row env w) (InsertResolved None);
              Invoke (invoke_body w)
                     (functions_invoke env (invoke_body w))].
      split; [|split; [apply insert_then_notify | cbn; split; [lia|reflexivity]]].
      assert (K : forall l w0,
                 remoteCalls (exec finish (exec (addLead l) w0))
                 = remoteCalls w0).
      { intros l w0.
        pose proof (addLead_frame l w0) as [_ [_ [Calls _]]].
        rewrite <- Calls. reflexivity. }
      cbn [snd]. rewrite K. cbn. rewrite <- app_assoc. reflexivity.
  - rewrite handleSubmit_invalid by (rewrite HV; discriminate). cbn.
    exists []. rewrite app_nil_r.
    split; [reflexivity|]. split; [apply no_call|]. cbn. split; [lia|reflexivity].
Qed.

(** C10.  When validation passes, both remote calls succeed, and a lead
    of the session already has the submitted email, [addLead] turns the
    lead away while the controller still sets submitted to true: the
    success view is shown with the old count, the session's leads are
    unchanged, and the store's [error] holds the duplicate-email
    message. *)
Theorem handleSubmit_duplicate_email (w : World) (emailData : string) :
  validateLeadForm (formData w) = [] ->
  form_name (formData w) <> "" -> form_email (formData w) <> "" ->
  supabase_insert env (insert_row env w) = InsertResolved None ->
  functions_invoke env (invoke_body w) = InvokeResolved None emailData ->
  (exists l, In l (sessionLeads (store w)) /\
             email l = form_email (formData w)) ->
  let w' := exec (handleSubmit validateLeadForm env) w in
  submitted (store w') = true /\
  sessionLeads (store w') = sessionLeads (store w) /\
  length (sessionLeads (store w')) = length (sessionLeads (store w)) /\
  error (store w')
  = Some "A lead with this email already exists in this session" /\
  LeadCaptureForm w' = SuccessView (length (sessionLeads (store w))).
Proof.
  intros HV Hn He HI HN Hdup. cbn zeta. unfold exec.
  rewrite handleSubmit_inserted by assumption. rewrite HN. cbn [notified].
  unfold exec. rewrite addLead_duplicate by (cbn; assumption).
  cbn. repeat split.
Qed.

End ControllerClaims.

(** Typing the three fields into a fresh page. *)
Lemma fill_fresh_page (validateLeadForm : FormData -> list ValidationError)
      (data : FormData) :
  session validateLeadForm (Scenario.fill data) initialWorld
  = mkWorld initialStore data [] [] [] 0.
Proof.
  destruct data as [n e i]. reflexivity.
Qed.

Lemma session_app (validateLeadForm : FormData -> list ValidationError)
      (first rest : list UserAction) (w : World) :
  session validateLeadForm (first ++ rest) w
  = session validateLeadForm rest (session validateLeadForm first w).
Proof.
  revert w. induction first as [|a first IH]; intros w; [reflexivity|].
  cbn. apply IH.
Qed.

(** C7.  On a fresh page, typing name "Ada", email "ada@example.com" and
    industry "technology" and submitting, with validation passing and both
    remote calls succeeding, leaves exactly one session lead: it carries
    the three values, the first reading of the clock as [submitted_at] and
    [emailSent = true]; the component then shows the success view with a
    session count of 1. *)
Theorem ada_round_trip
        (validateLeadForm : FormData -> list ValidationError)
        (env : Env) (emailData : string) :
  validateLeadForm (mkFormData "Ada" "ada@example.com" "technology") = [] ->
  supabase_insert env
    (mkRow "Ada" "ada@example.com" "technology" (Date_toISOString env 1))
  = InsertResolved None ->
  functions_invoke env (mkBody "Ada" "ada@example.com" "technology")
  = InvokeResolved None emailData ->
  let w' :=
    session validateLeadForm
      [TypeInto "name" "Ada"; TypeInto "email" "ada@example.com";
       TypeInto "industry" "technology"; Submit env]
      initialWorld in
  sessionLeads (store w')
  = [mkLead "Ada" "ada@example.com" "technology" (Date_toISOString env 0)
            (Some true)] /\
  submitted (store w') = true /\
  LeadCaptureForm w' = SuccessView 1.
Proof.
  intros HV HI HN. cbn zeta.
  change [TypeInto "name" "Ada"; TypeInto "email" "ada@example.com";
          TypeInto "industry" "technology"; Submit env]
    with (Scenario.fill Scenario.ada ++ [Submit env])%list.
  rewrite session_app, fill_fresh_page.
  cbn [session]. unfold perform, exec. cbn [LeadCaptureForm store submitted
    initialStore isLoading].
  rewrite handleSubmit_inserted by assumption.
  change (invoke_body _)
    with (mkBody "Ada" "ada@example.com" "technology").
  rewrite HN. cbn [notified snd].
  unfold exec. rewrite addLead_fresh.
  - cbn. repeat split.
  - cbn. discriminate.
  - cbn. discriminate.
  - cbn. intros l [].
Qed.

(** ** The validator of the specification *)

Lemma all_space_empty : Validation.all_chars Validation.is_space "" = true.
Proof. reflexivity. Qed.

(** A form the specification's validator lets through has a name, an
    email and an allowed industry. *)
Lemma validateLeadForm_requires (data : FormData) :
  Validation.validateLeadForm data = [] ->
  form_name data <> "" /\ form_email data <> "" /\
  In (form_industry data) Validation.industries.
Proof.
  unfold Validation.validateLeadForm. intros H.
  apply app_eq_nil in H. destruct H as [Hname H].
  apply app_eq_nil in H. destruct H as [Hemail Hind].
  split; [|split].
  - intros E. rewrite E, all_space_empty in Hname. discriminate.
  - destruct (truthy (form_email data)) eqn:T; [|discriminate].
    apply truthy_true. exact T.
  - destruct (existsb (String.eqb (form_industry data))
                      Validation.industries) eqn:X; [|discriminate].
    apply existsb_exists in X. destruct X as [i [Hin E]].
    apply String.eqb_eq in E. rewrite E. exact Hin.
Qed.

Example validateLeadForm_ada :
  Validation.validateLeadForm Scenario.ada = [].
Proof. reflexivity. Qed.

Example validateLeadForm_blank :
  map field (Validation.validateLeadForm emptyForm)
  = ["name"; "email"; "industry"].
Proof. reflexivity. Qed.

Example validateLeadForm_bad_email :
  map field
      (Validation.validateLeadForm (mkFormData "Ada" "ada@example" "other"))
  = ["email"].
Proof. reflexivity. Qed.

(** ** The concrete sessions, evaluated *)

Lemma ada_typed_world :
  Scenario.ada_typed = mkWorld initialStore Scenario.ada [] [] [] 0.
Proof. vm_compute. reflexivity. Qed.

Lemma ada_again_leads :
  sessionLeads (store Scenario.ada_again) = [Scenario.ada_lead] /\
  formData Scenario.ada_again = Scenario.ada /\
  submitted (store Scenario.ada_again) = false.
Proof. vm_compute. repeat split. Qed.

Lemma grace_after_ada_leads :
  sessionLeads (store Scenario.grace_after_ada) = [Scenario.ada_lead] /\
  formData Scenario.grace_after_ada = Scenario.grace /\
  submitted (store Scenario.grace_after_ada) = false.
Proof. vm_compute. repeat split. Qed.

(** The insert is aborted by the timer: one console entry, no message in
    the store, the form still shown with Ada's data. *)
Example insert_timeout_run :
  let w' := exec (handleSubmit Validation.validateLeadForm
                               Scenario.database_timeout)
                 Scenario.ada_typed in
  console w'
  = [ConsoleError "Error in submission process:" "The operation was aborted"]
  /\
  LeadCaptureForm w'
  = EntryForm Scenario.ada None None None None false false.
Proof. vm_compute. split; reflexivity. Qed.

(** After Ada's submission and the reset, Grace's submission raises the
    session count to 2. *)
Example second_submission_counts_two :
  LeadCaptureForm
    (exec (handleSubmit Validation.validateLeadForm Scenario.online)
          Scenario.grace_after_ada)
  = SuccessView 2.
Proof. vm_compute. reflexivity. Qed.

(** ** The claims at concrete sessions *)

(** The database is down when Ada submits: nothing reaches the store's
    [error]. *)
Lemma handleSubmit_insert_failure_witness :
  let w := Scenario.ada_typed in
  let env := Scenario.database_down in
  let w' := exec (handleSubmit Validation.validateLeadForm env) w in
  Validation.validateLeadForm (formData w) = [] /\
  insert_failed (supabase_insert env (insert_row env w)) = true /\
  isLoading (store w') = false /\
  error (store w') = None /\
  sessionLeads (store w') = [] /\
  submitted (store w') = false.
Proof.
  cbn zeta.
  assert (HV : Validation.validateLeadForm (formData Scenario.ada_typed) = [])
    by reflexivity.
  assert (HI : insert_failed
                 (supabase_insert Scenario.database_down
                    (insert_row Scenario.database_down Scenario.ada_typed))
               = true) by reflexivity.
  destruct (@handleSubmit_insert_failure Validation.validateLeadForm
              Scenario.database_down Scenario.ada_typed HV HI)
    as [L [E [Leads [Sub _]]]].
  split; [exact HV|]. split; [exact HI|]. split; [exact L|].
  split; [exact E|]. split; [exact Leads | exact Sub].
Defined.

(** C1 as stated fails: after a failed insert the store's [error] holds
    no message. *)
Lemma insert_failure_error_not_in_store :
  let w := Scenario.ada_typed in
  let env := Scenario.database_down in
  let w' := exec (handleSubmit Validation.validateLeadForm env) w in
  remoteCalls w'
  = [Insert (insert_row env w) (InsertResolved (Some "connection refused"))]
  /\
  ~ (isLoading (store w') = false /\
     (exists message, error (store w') = Some message) /\
     sessionLeads (store w') = sessionLeads (store w) /\
     submitted (store w') = false).
Proof.
  cbn zeta. split; [reflexivity|].
  intros [_ [[message E] _]]. vm_compute in E. discriminate.
Qed.

(** Grace submits after Ada while the confirmation call times out. *)
Lemma handleSubmit_notify_failure_witness :
  let w := Scenario.grace_after_ada in
  let env := Scenario.mail_timeout in
  let w' := exec (handleSubmit Validation.validateLeadForm env) w in
  Validation.validateLeadForm (formData w) = [] /\
  supabase_insert env (insert_row env w) = InsertResolved None /\
  notified (functions_invoke env (invoke_body w)) = false /\
  submitted (store w') = true /\
  sessionLeads (store w')
  = [Scenario.ada_lead;
     mkLead "Grace" "grace@example.com" "education" (Scenario.clock 2)
            (Some false)].
Proof.
  cbn zeta.
  assert (HV : Validation.validateLeadForm
                 (formData Scenario.grace_after_ada) = []) by reflexivity.
  assert (HI : supabase_insert Scenario.mail_timeout
                 (insert_row Scenario.mail_timeout Scenario.grace_after_ada)
               = InsertResolved None) by reflexivity.
  assert (HN : notified
                 (functions_invoke Scenario.mail_timeout
                    (invoke_body Scenario.grace_after_ada)) = false)
    by reflexivity.
  destruct (@handleSubmit_notify_failure Validation.validateLeadForm
              Scenario.mail_timeout Scenario.grace_after_ada HV HI HN)
    as [Sub [_ [_ [_ Added]]]].
  split; [exact HV|]. split; [exact HI|]. split; [exact HN|].
  split; [exact Sub|].
  assert (Hn : form_name (formData Scenario.grace_after_ada) <> "")
    by (vm_compute; discriminate).
  assert (He : form_email (formData Scenario.grace_after_ada) <> "")
    by (vm_compute; discriminate).
  assert (Hfresh : forall l,
             In l (sessionLeads (store Scenario.grace_after_ada)) ->
             email l <> form_email (formData Scenario.grace_after_ada)).
  { destruct grace_after_ada_leads as [L [F _]]. rewrite L, F.
    intros l [<-|[]]. cbn. discriminate. }
  destruct (Added Hn He Hfresh) as [App _].
  rewrite App. destruct grace_after_ada_leads as [L _]. rewrite L.
  vm_compute. reflexivity.
Defined.

(** C2 as stated fails: Ada submits her email a second time while the
    confirmation function is down; the insert succeeds, the invocation
    fails, and no lead with [emailSent = false] is in the session. *)
Lemma notify_failure_duplicate_not_stored :
  let w := Scenario.ada_again in
  let env := Scenario.mail_down in
  let w' := exec (handleSubmit Validation.validateLeadForm env) w in
  remoteCalls w'
  = (remoteCalls w
     ++ [Insert (insert_row env w) (InsertResolved None);
         Invoke (invoke_body w)
                (InvokeResolved (Some "non-2xx status code") "")])%list /\
  submitted (store w') = true /\
  sessionLeads (store w') = [Scenario.ada_lead] /\
  ~ (exists l, In l (sessionLeads (store w')) /\ emailSent l = Some false).
Proof.
  cbn zeta. split; [reflexivity|]. split; [reflexivity|].
  split; [reflexivity|].
  intros [l [Hin E]].
  assert (L : sessionLeads
                (store
                   (exec (handleSubmit Validation.validateLeadForm
                                       Scenario.mail_down)
                         Scenario.ada_again)) = [Scenario.ada_lead])
    by (vm_compute; reflexivity).
  rewrite L in Hin. destruct Hin as [<-|[]]. discriminate E.
Qed.

(** Two leads with Ada's email, one after the other. *)
Lemma addLead_fails_exactly_when_witness :
  let final :=
    store (exec (addLead Scenario.ada_late)
                (exec (addLead Scenario.ada_lead) initialWorld)) in
  name Scenario.ada_lead <> "" /\
  email Scenario.ada_lead <> "" /\
  email Scenario.ada_late = email Scenario.ada_lead /\
  emails_unique (store initialWorld) /\
  stored_with_email (email Scenario.ada_lead) final = 1 /\
  error final <> None.
Proof.
  cbn zeta.
  assert (Hn : name Scenario.ada_lead <> "") by (cbn; discriminate).
  assert (He : email Scenario.ada_lead <> "") by (cbn; discriminate).
  assert (Hs : email Scenario.ada_late = email Scenario.ada_lead)
    by reflexivity.
  assert (Hu : emails_unique (store initialWorld)) by constructor.
  split; [exact Hn|]. split; [exact He|]. split; [exact Hs|].
  split; [exact Hu|].
  exact (proj2 (proj2 (addLead_fails_exactly_when Scenario.ada_lead
                         initialWorld))
               Scenario.ada_late Hn He Hs Hu).
Defined.

(** Ada, Ada again, then Grace: two leads are kept, with two emails. *)
Lemma session_emails_unique_witness :
  let ops := [OpAddLead Scenario.ada_lead; OpSetSubmitted true;
              OpAddLead Scenario.ada_late; OpClearError;
              OpAddLead Scenario.grace_lead; OpSetLoading false] in
  let leads := sessionLeads (store (calls ops initialWorld)) in
  nth_error leads 0 = Some Scenario.ada_lead /\
  nth_error leads 1 = Some Scenario.grace_lead /\
  email Scenario.ada_lead <> email Scenario.grace_lead.
Proof.
  cbn zeta.
  assert (H0 : nth_error
                 (sessionLeads
                    (store
                       (calls
                          [OpAddLead Scenario.ada_lead; OpSetSubmitted true;
                           OpAddLead Scenario.ada_late; OpClearError;
                           OpAddLead Scenario.grace_lead; OpSetLoading false]
                          initialWorld))) 0 = Some Scenario.ada_lead)
    by reflexivity.
  assert (H1 : nth_error
                 (sessionLeads
                    (store
                       (calls
                          [OpAddLead Scenario.ada_lead; OpSetSubmitted true;
                           OpAddLead Scenario.ada_late; OpClearError;
                           OpAddLead Scenario.grace_lead; OpSetLoading false]
                          initialWorld))) 1 = Some Scenario.grace_lead)
    by reflexivity.
  split; [exact H0|]. split; [exact H1|].
  apply (proj2 (session_emails_unique _) 0 1 _ _ H0 H1). lia.
Defined.

(** Submitting the blank form. *)
Lemma handleSubmit_validation_errors_witness :
  let w' := exec (handleSubmit Validation.validateLeadForm Scenario.online)
                 initialWorld in
  Validation.validateLeadForm (formData initialWorld) <> [] /\
  remoteCalls w' = [] /\
  isLoading (store w') = false /\
  sessionLeads (store w') = [] /\
  submitted (store w') = false.
Proof.
  cbn zeta.
  assert (HV : Validation.validateLeadForm (formData initialWorld) <> [])
    by (vm_compute; discriminate).
  destruct (@handleSubmit_validation_errors Validation.validateLeadForm
              Scenario.online initialWorld HV) as [C [L [S [B _]]]].
  split; [exact HV|]. split; [exact C|]. split; [exact L|].
  split; [exact S | exact B].
Defined.

(** Ada's submission with the specification's validator. *)
Lemma ada_round_trip_witness :
  let w' :=
    session Validation.validateLeadForm
      [TypeInto "name" "Ada"; TypeInto "email" "ada@example.com";
       TypeInto "industry" "technology"; Submit Scenario.online]
      initialWorld in
  sessionLeads (store w') = [Scenario.ada_lead] /\
  submitted (store w') = true /\
  LeadCaptureForm w' = SuccessView 1.
Proof.
  exact (@ada_round_trip Validation.validateLeadForm Scenario.online "sent"
           eq_refl eq_refl eq_refl).
Defined.

(** A lead without industry is stored after Ada's. *)
Lemma addLead_ignores_industry_witness :
  let w := exec (addLead Scenario.ada_lead) initialWorld in
  let lead := Scenario.grace_lead in
  name lead <> "" /\ email lead <> "" /\
  (forall l, In l (sessionLeads (store w)) -> email l <> email lead) /\
  sessionLeads (store (exec (addLead (with_industry lead "")) w))
  = [Scenario.ada_lead; Scenario.grace_lead].
Proof.
  cbn zeta.
  assert (Hn : name Scenario.grace_lead <> "") by (cbn; discriminate).
  assert (He : email Scenario.grace_lead <> "") by (cbn; discriminate).
  assert (Hfresh : forall l,
             In l (sessionLeads
                     (store (exec (addLead Scenario.ada_lead) initialWorld))) ->
             email l <> email Scenario.grace_lead).
  { assert (L : sessionLeads
                  (store (exec (addLead Scenario.ada_lead) initialWorld))
                = [Scenario.ada_lead]) by (vm_compute; reflexivity).
    rewrite L. intros l [<-|[]]. cbn. discriminate. }
  split; [exact Hn|]. split; [exact He|]. split; [exact Hfresh|].
  exact (proj1 (proj1 (proj1 (addLead_ignores_industry Scenario.grace_lead
                                (exec (addLead Scenario.ada_lead)
                                      initialWorld))
                             Hn He Hfresh) "")).
Defined.

(** Ada submits her email twice; both remote calls succeed both times. *)
Lemma handleSubmit_duplicate_email_witness :
  let w := Scenario.ada_again in
  let env := Scenario.online in
  let w' := exec (handleSubmit Validation.validateLeadForm env) w in
  Validation.validateLeadForm (formData w) = [] /\
  (exists l, In l (sessionLeads (store w)) /\
             email l = form_email (formData w)) /\
  submitted (store w') = true /\
  sessionLeads (store w') = [Scenario.ada_lead] /\
  error (store w')
  = Some "A lead with this email already exists in this session" /\
  LeadCaptureForm w' = SuccessView 1.
Proof.
  cbn zeta.
  assert (HV : Validation.validateLeadForm (formData Scenario.ada_again) = [])
    by reflexivity.
  assert (Hn : form_name (formData Scenario.ada_again) <> "")
    by (vm_compute; discriminate).
  assert (He : form_email (formData Scenario.ada_again) <> "")
    by (vm_compute; discriminate).
  assert (Hdup : exists l, In l (sessionLeads (store Scenario.ada_again)) /\
                           email l = form_email (formData Scenario.ada_again)).
  { destruct ada_again_leads as [L [F _]]. rewrite L, F.
    exists Scenario.ada_lead. split; [left; reflexivity | reflexivity]. }
  destruct (@handleSubmit_duplicate_email Validation.validateLeadForm
              Scenario.online Scenario.ada_again "sent" HV Hn He
              eq_refl eq_refl Hdup) as [Sub [Leads [_ [Err View]]]].
  split; [exact HV|]. split; [exact Hdup|]. split; [exact Sub|].
  split; [exact Leads|]. split; [exact Err | exact View].
Defined.


(** * Further properties *)

(** ** Typing into the form, [handleInputChange] and [getFieldError] *)

Lemma filter_none_matching (A : Type) (p : A -> bool) (l : list A) :
  existsb p l = false -> filter (fun x => negb (p x)) l = l.
Proof.
  induction l as [|x rest IH]; [reflexivity|].
  cbn. intros H. apply orb_false_iff in H. destruct H as [Hx Hrest].
  rewrite Hx. cbn. rewrite IH by exact Hrest. reflexivity.
Qed.

(** Whether or not an error names the field, the list kept is the list
    without the errors of that field. *)
Lemma handleInputChange_run (fieldName value : string) (w : World) :
  handleInputChange fieldName value w
  = (Normal tt,
     mkWorld (store w) (put_field fieldName value (formData w))
       (filter (fun e => negb (field e =? fieldName)) (validationErrors w))
       (remoteCalls w) (console w) (clockReads w)).
Proof.
  unfold handleInputChange, function_body, bind, when, setFormData,
    setValidationErrors. cbn.
  destruct (existsb (fun e => field e =? fieldName) (validationErrors w))
    eqn:X; cbn.
  - reflexivity.
  - rewrite (filter_none_matching (fun e => field e =? fieldName) _ X).
    reflexivity.
Qed.

Lemma find_after_filter_same (fieldName : string)
      (errors : list ValidationError) :
  find (fun e => field e =? fieldName)
       (filter (fun e => negb (field e =? fieldName)) errors) = None.
Proof.
  induction errors as [|e rest IH]; [reflexivity|].
  cbn. destruct (field e =? fieldName) eqn:E; cbn; [exact IH|].
  rewrite E. exact IH.
Qed.

Lemma find_after_filter_other (fieldName other : string)
      (errors : list ValidationError) :
  other <> fieldName ->
  find (fun e => field e =? other)
       (filter (fun e => negb (field e =? fieldName)) errors)
  = find (fun e => field e =? other) errors.
Proof.
  intros Hneq. induction errors as [|e rest IH]; [reflexivity|].
  cbn. destruct (String.eqb_spec (field e) fieldName) as [E|N]; cbn.
  - destruct (String.eqb_spec (field e) other) as [E'|_]; [|exact IH].
    exfalso. apply Hneq. rewrite <- E', E. reflexivity.
  - destruct (field e =? other); [reflexivity | exact IH].
Qed.

(** X1.  Typing into a field removes the inline error of that field and
    leaves the inline error of every other field as it was; the store,
    the remote calls, the console and the clock are not touched. *)
Theorem handleInputChange_clears_field_error
        (fieldName value : string) (w : World) :
  let w' := exec (handleInputChange fieldName value) w in
  getFieldError (validationErrors w') fieldName = None /\
  (forall other, other <> fieldName ->
     getFieldError (validationErrors w') other
     = getFieldError (validationErrors w) other) /\
  store w' = store w /\
  remoteCalls w' = remoteCalls w /\
  console w' = console w /\
  clockReads w' = clockReads w.
Proof.
  cbn zeta. unfold exec. rewrite handleInputChange_run. cbn [snd].
  unfold getFieldError. cbn [validationErrors store remoteCalls console
                              clockReads].
  split; [rewrite find_after_filter_same; reflexivity|].
  split; [|repeat split].
  intros other Hneq. rewrite find_after_filter_other by exact Hneq.
  reflexivity.
Qed.

Lemma put_field_twice (fieldName v1 v2 : string) (data : FormData) :
  put_field fieldName v2 (put_field fieldName v1 data)
  = put_field fieldName v2 data.
Proof.
  unfold put_field.
  destruct (fieldName =? "name"); [reflexivity|].
  destruct (fieldName =? "email"); [reflexivity|].
  destruct (fieldName =? "industry"); reflexivity.
Qed.

Lemma put_field_swap (f1 f2 v1 v2 : string) (data : FormData) :
  f1 <> f2 ->
  put_field f2 v2 (put_field f1 v1 data)
  = put_field f1 v1 (put_field f2 v2 data).
Proof.
  intros Hneq. unfold put_field.
  destruct (String.eqb_spec f1 "name") as [E1|_];
    destruct (String.eqb_spec f2 "name") as [E2|_];
    try (exfalso; apply Hneq; rewrite E1, E2; reflexivity);
    destruct (String.eqb_spec f1 "email") as [E3|_];
    destruct (String.eqb_spec f2 "email") as [E4|_];
    try (exfalso; apply Hneq; rewrite E3, E4; reflexivity);
    destruct (String.eqb_spec f1 "industry") as [E5|_];
    destruct (String.eqb_spec f2 "industry") as [E6|_];
    try (exfalso; apply Hneq; rewrite E5, E6; reflexivity);
    reflexivity.
Qed.

Lemma filter_swap (A : Type) (p q : A -> bool) (l : list A) :
  filter q (filter p l) = filter p (filter q l).
Proof.
  induction l as [|x rest IH]; [reflexivity|].
  cbn. destruct (p x) eqn:P; destruct (q x) eqn:Q; cbn;
    rewrite ?P, ?Q, IH; reflexivity.
Qed.

Lemma filter_twice (A : Type) (p : A -> bool) (l : list A) :
  filter p (filter p l) = filter p l.
Proof.
  induction l as [|x rest IH]; [reflexivity|].
  cbn. destruct (p x) eqn:P; cbn; rewrite ?P, IH; reflexivity.
Qed.

(** X2.  Typing into two different fields gives the same world in either
    order, and typing twice into one field gives the world of the second
    typing alone. *)
Theorem handleInputChange_composes (f1 f2 v1 v2 : string) (w : World) :
  (f1 <> f2 ->
   exec (handleInputChange f2 v2) (exec (handleInputChange f1 v1) w)
   = exec (handleInputChange f1 v1) (exec (handleInputChange f2 v2) w)) /\
  exec (handleInputChange f1 v2) (exec (handleInputChange f1 v1) w)
  = exec (handleInputChange f1 v2) w.
Proof.
  unfold exec. rewrite !handleInputChange_run. cbn.
  split.
  - intros Hneq. rewrite (put_field_swap v1 v2 _ Hneq).
    rewrite (filter_swap (fun e => negb (field e =? f1))
                         (fun e => negb (field e =? f2))).
    reflexivity.
  - rewrite put_field_twice, filter_twice. reflexivity.
Qed.

(** ** The store under arbitrary calls *)

(** How one call of [addLead] ends, with the world it leaves. *)
Lemma addLead_outcome (lead : Lead) (w : World) :
  (name lead = "" \/ email lead = "") /\
  addLead lead w = rejected invalid_lead_message w
  \/
  (name lead <> "" /\ email lead <> "" /\
   exists l, In l (sessionLeads (store w)) /\ email l = email lead) /\
  addLead lead w = rejected duplicate_email_message w
  \/
  (name lead <> "" /\ email lead <> "" /\
   forall l, In l (sessionLeads (store w)) -> email l <> email lead) /\
  addLead lead w = accepted lead w.
Proof.
  destruct (string_dec (name lead) "") as [Hn|Hn].
  { left. split; [left; exact Hn | apply addLead_invalid; left; exact Hn]. }
  destruct (string_dec (email lead) "") as [He|He].
  { left. split; [right; exact He | apply addLead_invalid; right; exact He]. }
  destruct (addLead_cases lead w) as [[H|[H|Hdup]]|[_ [_ Hfresh]]];
    try contradiction.
  - right. left. split; [|apply addLead_duplicate; assumption].
    split; [exact Hn|]. split; [exact He | exact Hdup].
  - right. right. split; [|apply addLead_fresh; assumption].
    split; [exact Hn|]. split; [exact He | exact Hfresh].
Qed.

Lemma call_appends (op : StoreOp) (w : World) :
  exists added,
    sessionLeads (store (exec (call op) w))
    = (sessionLeads (store w) ++ added)%list /\
    length added <= (if is_addLead op then 1 else 0).
Proof.
  destruct op as [flag|lead| |flag]; cbn;
    try (exists []; rewrite app_nil_r; split; [reflexivity | cbn; lia]).
  unfold exec.
  destruct (addLead_outcome lead w) as [[_ R]|[[_ R]|[_ R]]]; rewrite R; cbn.
  - exists []. rewrite app_nil_r. split; [reflexivity | cbn; lia].
  - exists []. rewrite app_nil_r. split; [reflexivity | cbn; lia].
  - exists [lead]. split; [reflexivity | cbn; lia].
Qed.

(** X3.  No sequence of store calls removes, replaces or reorders a lead:
    the leads held before are a prefix of the leads held after, and at
    most one lead is added per call of [addLead]. *)
Theorem calls_only_append (ops : list StoreOp) (w : World) :
  exists added,
    sessionLeads (store (calls ops w))
    = (sessionLeads (store w) ++ added)%list /\
    length added <= length (filter is_addLead ops).
Proof.
  revert w. induction ops as [|op rest IH]; intros w.
  - exists []. cbn. rewrite app_nil_r. split; [reflexivity | lia].
  - cbn [calls]. destruct (IH (exec (call op) w)) as [later [E L]].
    destruct (call_appends op w) as [first [E1 L1]].
    exists (first ++ later)%list. split.
    + rewrite E, E1, app_assoc. reflexivity.
    + rewrite length_app. cbn [filter].
      destruct (is_addLead op); cbn [length]; lia.
Qed.

Lemma call_keeps_named (op : StoreOp) (w : World) :
  Forall (fun l => name l <> "" /\ email l <> "") (sessionLeads (store w)) ->
  Forall (fun l => name l <> "" /\ email l <> "")
         (sessionLeads (store (exec (call op) w))).
Proof.
  intros H. destruct op as [flag|lead| |flag]; cbn; try exact H.
  unfold exec.
  destruct (addLead_outcome lead w) as [[_ R]|[[_ R]|[[Hn [He _]] R]]];
    rewrite R; cbn; try exact H.
  apply Forall_app. split; [exact H|].
  constructor; [split; assumption | constructor].
Qed.

(** X4.  Whatever calls the store receives from its initial state, every
    lead it holds has a non-empty name and a non-empty email. *)
Theorem calls_leads_have_name_and_email (ops : list StoreOp) :
  Forall (fun l => name l <> "" /\ email l <> "")
         (sessionLeads (store (calls ops initialWorld))).
Proof.
  assert (G : forall w,
             Forall (fun l => name l <> "" /\ email l <> "")
                    (sessionLeads (store w)) ->
             Forall (fun l => name l <> "" /\ email l <> "")
                    (sessionLeads (store (calls ops w)))).
  { induction ops as [|op rest IH]; intros w H; [exact H|].
    cbn [calls]. apply IH. apply call_keeps_named. exact H. }
  apply G. constructor.
Qed.

Lemma call_error_known (op : StoreOp) (w : World) :
  let known e :=
    e = None \/ e = Some invalid_lead_message
    \/ e = Some duplicate_email_message in
  known (error (store w)) -> known (error (store (exec (call op) w))).
Proof.
  cbn zeta. intros H. destruct op as [flag|lead| |flag]; cbn;
    try exact H; try (left; reflexivity).
  unfold exec.
  destruct (addLead_outcome lead w) as [[_ R]|[[_ R]|[_ R]]]; rewrite R; cbn.
  - right. left. reflexivity.
  - right. right. reflexivity.
  - left. reflexivity.
Qed.

(** X5.  From the initial state the store's [error] is always null or one
    of the two messages [addLead] throws; the fallback text of its
    [catch] clause, "Failed to add lead", is never stored. *)
Theorem calls_error_is_known (ops : list StoreOp) :
  let e := error (store (calls ops initialWorld)) in
  (e = None
   \/ e = Some "Invalid lead data: name and email are required"
   \/ e = Some "A lead with this email already exists in this session") /\
  e <> Some "Failed to add lead".
Proof.
  cbn zeta.
  assert (G : forall w,
             (error (store w) = None
              \/ error (store w) = Some invalid_lead_message
              \/ error (store w) = Some duplicate_email_message) ->
             error (store (calls ops w)) = None
             \/ error (store (calls ops w)) = Some invalid_lead_message
             \/ error (store (calls ops w)) = Some duplicate_email_message).
  { induction ops as [|op rest IH]; intros w H; [exact H|].
    cbn [calls]. apply IH. apply (call_error_known op w). exact H. }
  assert (K := G initialWorld (or_introl eq_refl)).
  split; [exact K|].
  destruct K as [K|[K|K]]; rewrite K; discriminate.
Qed.

(** X6.  Calling [addLead] twice with one lead never stores it twice: the
    leads after the second call are those after the first, and the second
    call always ends with a non-null [error]. *)
Theorem addLead_twice (lead : Lead) (w : World) :
  let once := exec (addLead lead) w in
  let twice := exec (addLead lead) once in
  sessionLeads (store twice) = sessionLeads (store once) /\
  error (store twice) <> None.
Proof.
  cbn zeta.
  assert (R2 : exists reason,
             addLead lead (exec (addLead lead) w)
             = rejected reason (exec (addLead lead) w)).
  { destruct (addLead_outcome lead (exec (addLead lead) w))
      as [[_ R]|[[_ R]|[[Hn [He Hfresh]] _]]];
      [eexists; exact R | eexists; exact R | exfalso].
    unfold exec in Hfresh.
    destruct (addLead_outcome lead w) as [[[H|H] _]|[[[_ [_ Hdup]] R]|[_ R]]];
      try contradiction; rewrite R in Hfresh; cbn in Hfresh.
    - destruct Hdup as [l [Hin E]]. apply (Hfresh l Hin E).
    - apply (Hfresh lead); [|reflexivity].
      apply in_or_app. right. left. reflexivity. }
  destruct R2 as [reason R2].
  remember (exec (addLead lead) w) as once eqn:O.
  unfold exec. rewrite R2. cbn.
  split; [reflexivity | discriminate].
Qed.

(** ** One submission, whatever its outcome *)

Section SubmissionOutcomes.

Variable validateLeadForm : FormData -> list ValidationError.
Variable env : Env.

Lemma went_through_true (w : World) :
  went_through validateLeadForm env w = true <->
  validateLeadForm (formData w) = [] /\
  supabase_insert env (insert_row env w) = InsertResolved None.
Proof.
  unfold went_through. rewrite andb_true_iff, negb_true_iff. split.
  - intros [HV HI]. split.
    + destruct (validateLeadForm (formData w)); [reflexivity | discriminate].
    + destruct (supabase_insert env (insert_row env w)) as [[m|]|x];
        [discriminate | reflexivity | discriminate].
  - intros [HV HI]. rewrite HV, HI. split; reflexivity.
Qed.

(** A submission that stops early: validation errors, or a failed
    insert. *)
Lemma handleSubmit_stopped (w : World) :
  went_through validateLeadForm env w = false ->
  let w' := exec (handleSubmit validateLeadForm env) w in
  store w'
  = mkLeadStore (submitted (store w)) (sessionLeads (store w)) None false /\
  formData w' = formData w /\
  validationErrors w' = validateLeadForm (formData w) /\
  (remoteCalls w' = remoteCalls w
   \/ exists o, insert_failed o = true /\
                remoteCalls w'
                = (remoteCalls w ++ [Insert (insert_row env w) o])%list).
Proof.
  intros H. cbn zeta. unfold exec.
  destruct (validateLeadForm (formData w)) as [|e errors] eqn:HV.
  - destruct (insert_failed (supabase_insert env (insert_row env w)))
      eqn:HI.
    + rewrite handleSubmit_insert_failed by assumption. cbn.
      repeat (split; [reflexivity|]).
      right. eexists. split; [exact HI | reflexivity].
    + unfold went_through in H. rewrite HV, HI in H. discriminate.
  - rewrite handleSubmit_invalid by (rewrite HV; discriminate). cbn.
    rewrite HV. repeat (split; [reflexivity|]). left. reflexivity.
Qed.

(** A submission that went through, in terms of the call of [addLead]
    it makes. *)
Lemma handleSubmit_through (w : World) :
  went_through validateLeadForm env w = true ->
  let lead :=
    with_emailSent (candidate env w)
                   (notified (functions_invoke env (invoke_body w))) in
  let w1 := exec (addLead lead) (before_addLead env w) in
  let w' := exec (handleSubmit validateLeadForm env) w in
  store w'
  = mkLeadStore true (sessionLeads (store w1)) (error (store w1)) false /\
  formData w' = mkFormData "" "" "" /\
  validationErrors w' = [] /\
  remoteCalls w'
  = (remoteCalls w
     ++ [Insert (insert_row env w) (InsertResolved None);
         Invoke (invoke_body w) (functions_invoke env (invoke_body w))])%list.
Proof.
  intros H. apply went_through_true in H. destruct H as [HV HI].
  cbn zeta.
  assert (E : exec (handleSubmit validateLeadForm env) w
              = exec finish
                  (exec (addLead
                           (with_emailSent (candidate env w)
                              (notified
                                 (functions_invoke env (invoke_body w)))))
                        (before_addLead env w))).
  { unfold exec at 1. rewrite handleSubmit_inserted by assumption.
    reflexivity. }
  rewrite E.
  pose proof (addLead_frame
                (with_emailSent (candidate env w)
                   (notified (functions_invoke env (invoke_body w))))
                (before_addLead env w)) as [_ [VE [Calls _]]].
  remember (exec (addLead
                    (with_emailSent (candidate env w)
                       (notified (functions_invoke env (invoke_body w)))))
                 (before_addLead env w)) as w1 eqn:W1.
  cbn in *. split; [reflexivity|]. split; [reflexivity|].
  split; [exact VE|]. rewrite Calls, <- app_assoc. reflexivity.
Qed.

End SubmissionOutcomes.

Section SubmissionProperties.

Variable validateLeadForm : FormData -> list ValidationError.
Variable env : Env.

(** X7.  However a submission ends, it leaves loading false, and what is
    rendered next is the success view or the entry form with the data the
    user typed, no store error and an enabled button. *)
Theorem handleSubmit_view_after (w : World) :
  let w' := exec (handleSubmit validateLeadForm env) w in
  isLoading (store w') = false /\
  ((exists n, LeadCaptureForm w' = SuccessView n)
   \/ (exists nameError emailError industryError banner,
         LeadCaptureForm w'
         = EntryForm (formData w) nameError emailError industryError
                     None false banner)).
Proof.
  cbn zeta. destruct (went_through validateLeadForm env w) eqn:T.
  - destruct (handleSubmit_through validateLeadForm env w T) as [S _].
    unfold LeadCaptureForm. rewrite S. cbn.
    split; [reflexivity|]. left. eexists. reflexivity.
  - destruct (handleSubmit_stopped validateLeadForm env w T) as [S [F _]].
    unfold LeadCaptureForm. rewrite S, F. cbn.
    split; [reflexivity|].
    destruct (submitted (store w)).
    + left. eexists. reflexivity.
    + right. do 4 eexists. reflexivity.
Qed.

(** X8.  After a submission the store's [error] is non-null exactly when
    validation passed, the insert succeeded, and [addLead] turned the
    lead away (empty name, empty email, or an email the session already
    holds); a stale error never survives a submission. *)
Theorem handleSubmit_store_error_iff (w : World) :
  error (store (exec (handleSubmit validateLeadForm env) w)) <> None <->
  (validateLeadForm (formData w) = [] /\
   supabase_insert env (insert_row env w) = InsertResolved None /\
   (form_name (formData w) = "" \/ form_email (formData w) = "" \/
    exists l, In l (sessionLeads (store w)) /\
              email l = form_email (formData w))).
Proof.
  destruct (went_through validateLeadForm env w) eqn:T.
  - destruct (handleSubmit_through validateLeadForm env w T) as [S _].
    rewrite S. cbn [error].
    pose proof (proj1 (went_through_true validateLeadForm env w) T)
      as [HV HI].
    pose proof (addLead_store
                  (with_emailSent (candidate env w)
                     (notified (functions_invoke env (invoke_body w))))
                  (before_addLead env w)) as [_ [_ [Hrej Hacc]]].
    pose proof (addLead_cases
                  (with_emailSent (candidate env w)
                     (notified (functions_invoke env (invoke_body w))))
                  (before_addLead env w)) as Cases.
    cbn in Hrej, Hacc, Cases.
    split.
    + intros Herr. split; [exact HV|]. split; [exact HI|].
      destruct Cases as [R|[Hn [He Hfresh]]]; [exact R|].
      exfalso. apply Herr. apply (Hacc Hn He Hfresh).
    + intros [_ [_ R]]. destruct (Hrej R) as [_ [reason E]].
      rewrite E. discriminate.
  - destruct (handleSubmit_stopped validateLeadForm env w T) as [S _].
    rewrite S. cbn [error]. split; [intros H; contradiction|].
    intros [HV [HI _]].
    assert (T' : went_through validateLeadForm env w = true)
      by (apply went_through_true; split; assumption).
    rewrite T' in T. discriminate.
Qed.

(** X9.  A submission empties the form and sets submitted exactly when
    it got past validation and its insert succeeded; otherwise the typed
    data and the submitted flag stay as they were.  The validation errors
    kept for display are those of this submission. *)
Theorem handleSubmit_keeps_form_on_failure (w : World) :
  let w' := exec (handleSubmit validateLeadForm env) w in
  let ok := went_through validateLeadForm env w in
  formData w' = (if ok then mkFormData "" "" "" else formData w) /\
  submitted (store w') = (if ok then true else submitted (store w)) /\
  validationErrors w' = validateLeadForm (formData w).
Proof.
  cbn zeta. destruct (went_through validateLeadForm env w) eqn:T.
  - destruct (handleSubmit_through validateLeadForm env w T)
      as [S [F [VE _]]].
    apply went_through_true in T. destruct T as [HV _].
    rewrite S, F, VE, HV. repeat split.
  - destruct (handleSubmit_stopped validateLeadForm env w T)
      as [S [F [VE _]]].
    rewrite S, F, VE. repeat split.
Qed.

(** What one submission adds to the leads and to the remote calls. *)
Lemma handleSubmit_step (w : World) :
  let w' := exec (handleSubmit validateLeadForm env) w in
  exists block,
    remoteCalls w' = (remoteCalls w ++ block)%list /\
    (sessionLeads (store w') = sessionLeads (store w)
     \/ exists lead row body o,
          sessionLeads (store w') = (sessionLeads (store w) ++ [lead])%list /\
          block = [Insert row (InsertResolved None); Invoke body o] /\
          (forall l, In l (sessionLeads (store w)) -> email l <> email lead) /\
          name lead <> "" /\ email lead <> "" /\
          row_name row = name lead /\ row_email row = email lead /\
          row_industry row = industry lead /\
          same_fields row body /\
          emailSent lead = Some (notified o) /\
          name lead = form_name (formData w) /\
          email lead = form_email (formData w) /\
          industry lead = form_industry (formData w) /\
          submitted_at lead = Date_toISOString env (clockReads w) /\
          row_submitted_at row = Date_toISOString env (S (clockReads w))).
Proof.
  cbn zeta. destruct (went_through validateLeadForm env w) eqn:T.
  - destruct (handleSubmit_through validateLeadForm env w T)
      as [S [_ [_ Calls]]].
    eexists. split; [exact Calls|].
    rewrite S. cbn [sessionLeads]. unfold exec.
    destruct (addLead_outcome
                (with_emailSent (candidate env w)
                   (notified (functions_invoke env (invoke_body w))))
                (before_addLead env w))
      as [[_ R]|[[_ R]|[[Hn [He Hfresh]] R]]];
      rewrite R; cbn.
    + left. reflexivity.
    + left. reflexivity.
    + right.
      exists (with_emailSent (candidate env w)
                (notified (functions_invoke env (invoke_body w)))),
             (insert_row env w), (invoke_body w),
             (functions_invoke env (invoke_body w)).
      split; [reflexivity|]. split; [reflexivity|].
      split; [exact Hfresh|]. split; [exact Hn|]. split; [exact He|].
      cbn. unfold same_fields. cbn. repeat split.
  - destruct (handleSubmit_stopped validateLeadForm env w T)
      as [S [_ [_ [Calls|[o [_ Calls]]]]]].
    + exists []. rewrite app_nil_r. split; [exact Calls|].
      rewrite S. left. reflexivity.
    + eexists. split; [exact Calls|]. rewrite S. left. reflexivity.
Qed.

(** X10.  A submission leaves the session's leads as they were or appends
    exactly one lead.  A lead is appended only together with a successful
    insert and one invocation that carry its name, email and industry;
    its [emailSent] tells whether that invocation resolved without an
    error, and its [submitted_at] is the clock reading taken just before
    the one sent in the row. *)
Theorem handleSubmit_lead_step (w : World) :
  let w' := exec (handleSubmit validateLeadForm env) w in
  sessionLeads (store w') = sessionLeads (store w)
  \/ exists lead row body o,
       sessionLeads (store w') = (sessionLeads (store w) ++ [lead])%list /\
       remoteCalls w'
       = (remoteCalls w
          ++ [Insert row (InsertResolved None); Invoke body o])%list /\
       row_name row = name lead /\ row_email row = email lead /\
       row_industry row = industry lead /\
       same_fields row body /\
       emailSent lead = Some (notified o) /\
       name lead = form_name (formData w) /\
       email lead = form_email (formData w) /\
       industry lead = form_industry (formData w) /\
       submitted_at lead = Date_toISOString env (clockReads w) /\
       row_submitted_at row = Date_toISOString env (S (clockReads w)).
Proof.
  cbn zeta. destruct (handleSubmit_step w) as [block [Calls [Same|New]]].
  - left. exact Same.
  - right. destruct New as [lead [row [body [o [App [B [_ [_ [_ Rest]]]]]]]]].
    exists lead, row, body, o. split; [exact App|].
    split; [rewrite Calls, B; reflexivity | exact Rest].
Qed.

End SubmissionProperties.

(** ** Whole sessions of user actions *)

Section SessionProperties.

Variable validateLeadForm : FormData -> list ValidationError.

(** A property of the world that each handler keeps, where the component
    offers it, holds throughout a session. *)
Lemma session_keeps (P : World -> Prop) :
  (forall env w,
     P w -> submitted (store w) = false -> isLoading (store w) = false ->
     P (exec (handleSubmit validateLeadForm env) w)) ->
  (forall f v w,
     P w -> submitted (store w) = false ->
     P (exec (handleInputChange f v) w)) ->
  (forall w, P w -> submitted (store w) = true -> P (exec submitAnother w)) ->
  forall actions w, P w -> P (session validateLeadForm actions w).
Proof.
  intros Hsubmit Htype Hreset.
  induction actions as [|a rest IH]; intros w H; [exact H|].
  cbn [session]. apply IH. unfold exec, perform, LeadCaptureForm.
  destruct (submitted (store w)) eqn:Sub.
  - destruct a as [f v|env|]; cbn; try exact H.
    apply Hreset; assumption.
  - destruct a as [f v|env|]; cbn; try exact H.
    + apply Htype; assumption.
    + destruct (isLoading (store w)) eqn:L; cbn; [exact H|].
      apply Hsubmit; assumption.
Qed.

Lemma paired_app (first rest : list RemoteCall) :
  paired first -> paired rest -> paired (first ++ rest).
Proof.
  intros Hf Hr. induction Hf as [|row o tl Hfail _ IH|row body o tl Hs _ IH].
  - exact Hr.
  - cbn. apply paired_failed; assumption.
  - cbn. apply paired_sent; assumption.
Qed.

Lemma paired_counts (calls : list RemoteCall) :
  paired calls ->
  length (filter is_invoke calls)
  = length (filter is_successful_insert calls).
Proof.
  intros H. induction H as [|row o tl Hfail _ IH|row body o tl _ _ IH].
  - reflexivity.
  - cbn [filter is_invoke].
    destruct o as [[m|]|x]; [|discriminate|]; cbn; exact IH.
  - cbn. rewrite IH. reflexivity.
Qed.

Lemma same_fields_submission (env : Env) (w : World) :
  same_fields (insert_row env w) (invoke_body w).
Proof. unfold same_fields. cbn. repeat split. Qed.

(** X11.  In every session that starts on a fresh page, whatever the
    validator and the collaborators do, the history of remote calls is a
    run of failed inserts and of successful inserts each followed at once
    by one invocation for the same name, email and industry; so there are
    as many invocations as successful inserts. *)
Theorem session_calls_paired (actions : list UserAction) :
  let history := remoteCalls (session validateLeadForm actions initialWorld) in
  paired history /\
  length (filter is_invoke history)
  = length (filter is_successful_insert history).
Proof.
  cbn zeta.
  assert (P : paired
                (remoteCalls (session validateLeadForm actions initialWorld))).
  { apply (session_keeps (fun w => paired (remoteCalls w))).
    - intros env w H _ _.
      destruct (went_through validateLeadForm env w) eqn:T.
      + destruct (handleSubmit_through validateLeadForm env w T)
          as [_ [_ [_ Calls]]].
        rewrite Calls. apply paired_app; [exact H|].
        apply paired_sent; [apply same_fields_submission | apply paired_nil].
      + destruct (handleSubmit_stopped validateLeadForm env w T)
          as [_ [_ [_ [Calls|[o [Hfail Calls]]]]]]; rewrite Calls.
        * exact H.
        * apply paired_app; [exact H|].
          apply paired_failed; [exact Hfail | apply paired_nil].
    - intros f v w H _. unfold exec. rewrite handleInputChange_run. exact H.
    - intros w H _. exact H.
    - apply paired_nil. }
  split; [exact P | apply paired_counts; exact P].
Qed.

Lemma backed_by_more (calls later : list RemoteCall) (l : Lead) :
  backed_by calls l -> backed_by (calls ++ later) l.
Proof.
  intros [row [body [o [Hi [Hv Rest]]]]].
  exists row, body, o.
  split; [apply in_or_app; left; exact Hi|].
  split; [apply in_or_app; left; exact Hv | exact Rest].
Qed.

(** X12.  In every session that starts on a fresh page, each lead of the
    session collection is backed by the remote calls made: a successful
    insert and an invocation carrying its name, email and industry, and
    its [emailSent] is [true] exactly when that invocation resolved
    without an error.  No lead is stored without having been inserted. *)
Theorem session_leads_backed (actions : list UserAction) :
  let w := session validateLeadForm actions initialWorld in
  Forall (backed_by (remoteCalls w)) (sessionLeads (store w)).
Proof.
  cbn zeta.
  apply (session_keeps
           (fun w => Forall (backed_by (remoteCalls w))
                            (sessionLeads (store w)))).
  - intros env w H _ _.
    destruct (handleSubmit_step validateLeadForm env w)
      as [block [Calls [Same|New]]].
    + rewrite Calls, Same.
      apply (Forall_impl _ (fun l => @backed_by_more _ block l) H).
    + destruct New as [lead [row [body [o [App [B [_ [_ [_ [Rn [Re [Ri
                       [SF [ES _]]]]]]]]]]]]]].
      rewrite Calls, App. apply Forall_app. split.
      * apply (Forall_impl _ (fun l => @backed_by_more _ block l) H).
      * constructor; [|constructor].
        exists row, body, o. rewrite B.
        split; [apply in_or_app; right; left; reflexivity|].
        split; [apply in_or_app; right; right; left; reflexivity|].
        repeat split; try assumption; apply SF.
  - intros f v w H _. unfold exec. rewrite handleInputChange_run. exact H.
  - intros w H _. exact H.
  - constructor.
Qed.

(** X13.  In every session that starts on a fresh page, whatever the
    validator lets through, no two leads of the session collection have
    the same email, and every lead has a non-empty name and a non-empty
    email. *)
Theorem session_leads_unique_and_named (actions : list UserAction) :
  let leads :=
    sessionLeads (store (session validateLeadForm actions initialWorld)) in
  NoDup (map email leads) /\
  Forall (fun l => name l <> "" /\ email l <> "") leads.
Proof.
  cbn zeta.
  apply (session_keeps
           (fun w => NoDup (map email (sessionLeads (store w))) /\
                     Forall (fun l => name l <> "" /\ email l <> "")
                            (sessionLeads (store w)))).
  - intros env w [Hnd Hnamed] _ _.
    destruct (handleSubmit_step validateLeadForm env w)
      as [block [_ [Same|New]]].
    + rewrite Same. split; assumption.
    + destruct New as [lead [row [body [o [App [_ [Hfresh [Hn [He _]]]]]]]]].
      rewrite App. split.
      * apply emails_unique_append; assumption.
      * apply Forall_app. split; [exact Hnamed|].
        constructor; [split; assumption | constructor].
  - intros f v w H _. unfold exec. rewrite handleInputChange_run. exact H.
  - intros w H _. exact H.
  - split; constructor.
Qed.


End SessionProperties.

(** X15.  With a validator that lets no empty name or email through, the
    success view of a session that started on a fresh page never reports
    a session count of 0: when submitted is true the collection holds at
    least one lead. *)
Theorem session_success_count_positive
        (validateLeadForm : FormData -> list ValidationError)
        (actions : list UserAction) :
  (forall data, validateLeadForm data = [] ->
                form_name data <> "" /\ form_email data <> "") ->
  let w := session validateLeadForm actions initialWorld in
  submitted (store w) = true ->
  exists n, LeadCaptureForm w = SuccessView (S n).
Proof.
  intros Sound. cbn zeta.
  assert (I : submitted
                (store (session validateLeadForm actions initialWorld))
              = true ->
              sessionLeads
                (store (session validateLeadForm actions initialWorld))
              <> []).
  { apply (session_keeps validateLeadForm
             (fun w => submitted (store w) = true ->
                       sessionLeads (store w) <> [])).
    - intros env w _ Sub _.
      destruct (went_through validateLeadForm env w) eqn:T.
      + destruct (handleSubmit_through validateLeadForm env w T) as [S _].
        apply went_through_true in T. destruct T as [HV _].
        destruct (Sound _ HV) as [Hn He].
        rewrite S. cbn [submitted sessionLeads]. intros _. unfold exec.
        destruct (addLead_outcome
                    (with_emailSent (candidate env w)
                       (notified (functions_invoke env (invoke_body w))))
                    (before_addLead env w))
          as [[[H|H] _]|[[[_ [_ [l [Hin _]]]] R]|[_ R]]];
          try (cbn in H; contradiction); rewrite R; cbn.
        * cbn in Hin. intros E. rewrite E in Hin. destruct Hin.
        * intros E. apply app_eq_nil in E. destruct E as [_ E].
          discriminate E.
      + destruct (handleSubmit_stopped validateLeadForm env w T) as [S _].
        rewrite S. cbn. rewrite Sub. discriminate.
    - intros f v w _ Sub. unfold exec. rewrite handleInputChange_run.
      cbn. rewrite Sub. discriminate.
    - intros w _ _. cbn. discriminate.
    - cbn. discriminate. }
  intros Sub. specialize (I Sub).
  unfold LeadCaptureForm. rewrite Sub.
  destruct (sessionLeads
              (store (session validateLeadForm actions initialWorld)))
    as [|l rest]; [contradiction|].
  exists (length rest). reflexivity.
Qed.

(** The hypothesis on the validator is needed: a validator that lets the
    blank form through leads to a success view that reports 0. *)
Example blank_form_counts_zero :
  LeadCaptureForm
    (session (fun _ => []) [Submit Scenario.online] initialWorld)
  = SuccessView 0.
Proof. vm_compute. reflexivity. Qed.

(** ** Inline errors *)

(** X16.  [getFieldError] shows the message of the first error that names
    the field, and nothing exactly when no error names it. *)
Theorem getFieldError_first_match
        (errors : list ValidationError) (fieldName : string) :
  (getFieldError errors fieldName = None <->
   forall e, In e errors -> field e <> fieldName) /\
  (forall before e after,
     errors = (before ++ e :: after)%list ->
     field e = fieldName ->
     (forall e', In e' before -> field e' <> fieldName) ->
     getFieldError errors fieldName = Some (vmessage e)).
Proof.
  unfold getFieldError. split; [split|].
  - intros H e Hin E.
    destruct (find (fun e0 => field e0 =? fieldName) errors) eqn:F;
      [discriminate|].
    apply (find_none _ _ F) in Hin. apply String.eqb_neq in Hin.
    contradiction.
  - intros H.
    destruct (find (fun e0 => field e0 =? fieldName) errors) as [e|] eqn:F;
      [|reflexivity].
    exfalso. apply find_some in F. destruct F as [Hin E].
    apply String.eqb_eq in E. apply (H e Hin E).
  - intros before e after -> E Hbefore.
    induction before as [|b before IH]; cbn.
    + rewrite (proj2 (String.eqb_eq _ _) E). reflexivity.
    + destruct (String.eqb_spec (field b) fieldName) as [Eb|_].
      * exfalso. apply (Hbefore b); [left; reflexivity | exact Eb].
      * apply IH. intros e' Hin. apply Hbefore. right. exact Hin.
Qed.

(** X17.  When every validation error names one of the three form
    fields, typing into the name, the email and the industry removes all
    of them, so the entry form no longer shows the validation banner. *)
Theorem typing_all_fields_clears_errors (v1 v2 v3 : string) (w : World) :
  (forall e, In e (validationErrors w) ->
             field e = "name" \/ field e = "email" \/ field e = "industry") ->
  let w' :=
    exec (handleInputChange "industry" v3)
         (exec (handleInputChange "email" v2)
               (exec (handleInputChange "name" v1) w)) in
  validationErrors w' = [] /\
  formData w' = mkFormData v1 v2 v3 /\
  store w' = store w.
Proof.
  intros H. cbn zeta. unfold exec. rewrite !handleInputChange_run. cbn.
  split; [|split; reflexivity].
  induction (validationErrors w) as [|e rest IH]; [reflexivity|].
  assert (IH' := IH (fun e' Hin => H e' (or_intror Hin))).
  cbn [filter].
  destruct (String.eqb_spec (field e) "name") as [E1|N1]; cbn [negb];
    [exact IH'|].
  cbn [filter].
  destruct (String.eqb_spec (field e) "email") as [E2|N2]; cbn [negb];
    [exact IH'|].
  cbn [filter].
  destruct (String.eqb_spec (field e) "industry") as [E3|N3]; cbn [negb];
    [exact IH'|].
  exfalso. destruct (H e (or_introl eq_refl)) as [E|[E|E]]; contradiction.
Qed.

(** ** Exceptions *)

(** X18.  Nothing escapes the store's operations or the component's
    handlers: every call completes normally, also when the awaited insert
    or invocation rejects (as an aborted request does) and when
    [addLead] throws inside its own [try]. *)
Theorem handlers_never_throw
        (validateLeadForm : FormData -> list ValidationError)
        (env : Env) (op : StoreOp) (a : UserAction)
        (fieldName value : string) (w : World) :
  completion (call op) w = Normal tt /\
  completion (handleSubmit validateLeadForm env) w = Normal tt /\
  completion (handleInputChange fieldName value) w = Normal tt /\
  completion submitAnother w = Normal tt /\
  completion (perform validateLeadForm a) w = Normal tt.
Proof.
  split; [|split; [|split; [|split]]].
  - destruct op as [flag|lead| |flag]; try reflexivity.
    apply addLead_completes.
  - apply handleSubmit_completes.
  - unfold completion. rewrite handleInputChange_run. reflexivity.
  - reflexivity.
  - unfold completion, perform.
    destruct (LeadCaptureForm w) as [n|fields e1 e2 e3 storeError busy banner];
      destruct a as [f v|env'|]; try reflexivity.
    + rewrite handleInputChange_run. reflexivity.
    + destruct busy; [reflexivity|].
      apply (handleSubmit_completes validateLeadForm env' w).
Qed.

(** ** The further properties at concrete sessions *)

(** After submitting the blank form, typing a name keeps the email's
    inline error. *)
Lemma handleInputChange_clears_field_error_witness :
  let w := exec (handleSubmit Validation.validateLeadForm Scenario.online)
                initialWorld in
  let w' := exec (handleInputChange "name" "Ada") w in
  "email" <> "name" /\
  getFieldError (validationErrors w') "email"
  = getFieldError (validationErrors w) "email".
Proof.
  cbn zeta.
  assert (H : "email" <> "name") by discriminate.
  split; [exact H|].
  exact (proj1 (proj2 (handleInputChange_clears_field_error "name" "Ada"
                         (exec (handleSubmit Validation.validateLeadForm
                                             Scenario.online)
                               initialWorld)))
               "email" H).
Defined.

(** Name then email, or email then name. *)
Lemma handleInputChange_composes_witness :
  "name" <> "email" /\
  exec (handleInputChange "email" "ada@example.com")
       (exec (handleInputChange "name" "Ada") initialWorld)
  = exec (handleInputChange "name" "Ada")
         (exec (handleInputChange "email" "ada@example.com") initialWorld).
Proof.
  assert (H : "name" <> "email") by discriminate.
  split; [exact H|].
  exact (proj1 (handleInputChange_composes "name" "email" "Ada"
                  "ada@example.com" initialWorld) H).
Defined.

(** Ada's second submission of the same email sets the store's error. *)
Lemma handleSubmit_store_error_iff_witness :
  let w := Scenario.ada_again in
  let env := Scenario.online in
  Validation.validateLeadForm (formData w) = [] /\
  supabase_insert env (insert_row env w) = InsertResolved None /\
  error (store (exec (handleSubmit Validation.validateLeadForm env) w))
  <> None.
Proof.
  cbn zeta.
  assert (HV : Validation.validateLeadForm (formData Scenario.ada_again) = [])
    by reflexivity.
  assert (HI : supabase_insert Scenario.online
                 (insert_row Scenario.online Scenario.ada_again)
               = InsertResolved None) by reflexivity.
  assert (Hdup : exists l, In l (sessionLeads (store Scenario.ada_again)) /\
                           email l = form_email (formData Scenario.ada_again)).
  { destruct ada_again_leads as [L [F _]]. rewrite L, F.
    exists Scenario.ada_lead. split; [left; reflexivity | reflexivity]. }
  split; [exact HV|]. split; [exact HI|].
  exact (proj2 (@handleSubmit_store_error_iff Validation.validateLeadForm
                  Scenario.online Scenario.ada_again)
               (conj HV (conj HI (or_intror (or_intror Hdup))))).
Defined.


(** With the specification's validator, Ada's duplicate submission still
    reports a positive count. *)
Lemma session_success_count_positive_witness :
  let w := session Validation.validateLeadForm
                   (Scenario.fill Scenario.ada
                    ++ [Submit Scenario.online; SubmitAnother]
                    ++ Scenario.fill Scenario.ada
                    ++ [Submit Scenario.online])
                   initialWorld in
  submitted (store w) = true /\
  exists n, LeadCaptureForm w = SuccessView (S n).
Proof.
  cbn zeta.
  assert (Sub : submitted
                  (store
                     (session Validation.validateLeadForm
                        (Scenario.fill Scenario.ada
                         ++ [Submit Scenario.online; SubmitAnother]
                         ++ Scenario.fill Scenario.ada
                         ++ [Submit Scenario.online])
                        initialWorld)) = true) by (vm_compute; reflexivity).
  split; [exact Sub|].
  exact (@session_success_count_positive Validation.validateLeadForm
           (Scenario.fill Scenario.ada
            ++ [Submit Scenario.online; SubmitAnother]
            ++ Scenario.fill Scenario.ada
            ++ [Submit Scenario.online])%list
           (fun data H =>
              conj (proj1 (validateLeadForm_requires data H))
                   (proj1 (proj2 (validateLeadForm_requires data H))))
           Sub).
Defined.

(** The second of two errors is the first that names the email. *)
Lemma getFieldError_first_match_witness :
  let errors := [mkValidationError "name" "Name is required";
                 mkValidationError "email" "A valid email is required";
                 mkValidationError "email" "shadowed"] in
  getFieldError errors "email" = Some "A valid email is required".
Proof.
  cbn zeta.
  refine (proj2 (getFieldError_first_match
                   [mkValidationError "name" "Name is required";
                    mkValidationError "email" "A valid email is required";
                    mkValidationError "email" "shadowed"] "email")
                [mkValidationError "name" "Name is required"]
                (mkValidationError "email" "A valid email is required")
                [mkValidationError "email" "shadowed"]
                eq_refl eq_refl _).
  intros e' [<-|[]]. cbn. discriminate.
Defined.

(** After submitting the blank form, typing Ada's data removes the three
    errors. *)
Lemma typing_all_fields_clears_errors_witness :
  let w := exec (handleSubmit Validation.validateLeadForm Scenario.online)
                initialWorld in
  let w' :=
    exec (handleInputChange "industry" "technology")
         (exec (handleInputChange "email" "ada@example.com")
               (exec (handleInputChange "name" "Ada") w)) in
  length (validationErrors w) = 3 /\
  validationErrors w' = [] /\
  formData w' = Scenario.ada.
Proof.
  cbn zeta.
  assert (E : validationErrors
                (exec (handleSubmit Validation.validateLeadForm
                                    Scenario.online) initialWorld)
              = [mkValidationError "name" "Name is required";
                 mkValidationError "email" "A valid email is required";
                 mkValidationError "industry" "Industry is required"])
    by (vm_compute; reflexivity).
  assert (H : forall e,
             In e (validationErrors
                     (exec (handleSubmit Validation.validateLeadForm
                                         Scenario.online) initialWorld)) ->
             field e = "name" \/ field e = "email" \/ field e = "industry").
  { rewrite E. intros e [<-|[<-|[<-|[]]]]; cbn.
    - left. reflexivity.
    - right. left. reflexivity.
    - right. right. reflexivity. }
  split; [rewrite E; reflexivity|].
  destruct (@typing_all_fields_clears_errors "Ada" "ada@example.com"
              "technology" _ H) as [VE [F _]].
  split; [exact VE | exact F].
Defined.
